(** * awesome-earn: per-contract trade aggregation

    A shallow embedding of the two aggregation scripts of the repository,

    - [scripty/aggregate_contracts.py]: the cost/profit netting engine
      ([parse_decimal], [ContractAggregation], [aggregate_contracts],
      [load_rows]), with the parts of Python's [decimal] module it runs on;
    - [scripty/process_excel.py]: the position reconstruction engine (the
      per-contract body of [process_trading_data]),

    and the properties of the specification stated and proved over them.

    Python [str] values are Rocq strings holding the UTF-8 encoding of the
    text, so that the column names and side markers of the scripts can be
    written as they are in the source. *)

From Stdlib Require Import ZArith NArith QArith String Ascii List Bool Lia.
From Stdlib Require Import PrimFloat SpecFloat FloatOps DecimalString.
From stdpp Require Import base option list gmap strings.

Local Open Scope string_scope.
Local Open Scope list_scope.
Local Open Scope Z_scope.

(** ** Python exceptions and results *)

Module Py.

(** The exceptions the modelled code can raise. [InvalidOperation] and
    [Overflow] are the two [decimal] signals that are trapped in the default
    context and can arise here; [SystemExit] is [sys.exit]. *)
Inductive exn : Type :=
| InvalidOperation
| Overflow
| TypeError
| ValueError (msg : string)
| SystemExit (code : Z).

Inductive result (A : Type) : Type :=
| Ok (a : A)
| Raise (e : exn).
Arguments Ok {A} a.
Arguments Raise {A} e.

Definition bind {A B} (r : result A) (k : A -> result B) : result B :=
  match r with
  | Ok a => k a
  | Raise e => Raise e
  end.


(** [for x in xs: acc = f(acc, x)], stopping at the first exception. *)
Fixpoint for_each {A S} (f : S -> A -> result S) (xs : list A) (s : S) : result S :=
  match xs with
  | [] => Ok s
  | x :: xs' => bind (f s x) (for_each f xs')
  end.

(** *** [str.strip()]

    Python strips the code points for which [str.isspace] holds: the ASCII
    controls 9-13 and 28-31, the space, and U+0085, U+00A0, U+1680,
    U+2000-U+200A, U+2028, U+2029, U+202F, U+205F, U+3000 (shown here by
    their UTF-8 bytes). *)

Definition byte_is (c : ascii) (n : N) : bool := N.eqb (N_of_ascii c) n.

Definition ascii_space (c : ascii) : bool :=
  let n := N_of_ascii c in
  ((9 <=? n) && (n <=? 13))%N || ((28 <=? n) && (n <=? 32))%N.

(** The third byte of the three-byte whitespace sequences [E2 80 xx]. *)
Definition e2_80_space (c : ascii) : bool :=
  let n := N_of_ascii c in
  ((128 <=? n) && (n <=? 138))%N || N.eqb n 168 || N.eqb n 169 || N.eqb n 175.

Fixpoint lstrip (l : list ascii) : list ascii :=
  match l with
  | c1 :: l1 =>
      if ascii_space c1 then lstrip l1 else
      match l1 with
      | c2 :: l2 =>
          if byte_is c1 194 && (byte_is c2 133 || byte_is c2 160) then lstrip l2 else
          match l2 with
          | c3 :: l3 =>
              if (byte_is c1 225 && byte_is c2 154 && byte_is c3 128)
                 || (byte_is c1 226 && byte_is c2 128 && e2_80_space c3)
                 || (byte_is c1 226 && byte_is c2 129 && byte_is c3 159)
                 || (byte_is c1 227 && byte_is c2 128 && byte_is c3 128)
              then lstrip l3 else l
          | [] => l
          end
      | [] => l
      end
  | [] => []
  end.

(** The same scan over the reversed text: the last byte comes first. *)
Fixpoint lstrip_rev (l : list ascii) : list ascii :=
  match l with
  | c3 :: l1 =>
      if ascii_space c3 then lstrip_rev l1 else
      match l1 with
      | c2 :: l2 =>
          if byte_is c2 194 && (byte_is c3 133 || byte_is c3 160) then lstrip_rev l2 else
          match l2 with
          | c1 :: l3 =>
              if (byte_is c1 225 && byte_is c2 154 && byte_is c3 128)
                 || (byte_is c1 226 && byte_is c2 128 && e2_80_space c3)
                 || (byte_is c1 226 && byte_is c2 129 && byte_is c3 159)
                 || (byte_is c1 227 && byte_is c2 128 && byte_is c3 128)
              then lstrip_rev l3 else l
          | [] => l
          end
      | [] => l
      end
  | [] => []
  end.

Definition strip_chars (l : list ascii) : list ascii :=
  rev (lstrip_rev (rev (lstrip l))).

Definition strip (s : string) : string :=
  string_of_list_ascii (strip_chars (list_ascii_of_string s)).

(** [text.replace(c, "")] for a one-character [c]. *)
Definition remove_char (c : ascii) (l : list ascii) : list ascii :=
  List.filter (fun x => negb (Ascii.eqb x c)) l.

(** [needle in haystack] for strings. *)
Fixpoint is_prefix (p l : list ascii) : bool :=
  match p, l with
  | [], _ => true
  | _ :: _, [] => false
  | a :: p', b :: l' => Ascii.eqb a b && is_prefix p' l'
  end.

Fixpoint contains_chars (needle l : list ascii) : bool :=
  is_prefix needle l ||
  match l with
  | [] => false
  | _ :: l' => contains_chars needle l'
  end.

Definition contains (needle haystack : string) : bool :=
  contains_chars (list_ascii_of_string needle) (list_ascii_of_string haystack).

End Py.

Import Py.

#[export] Instance result_ret : MRet result := @Ok.
#[export] Instance result_bind : MBind result := fun A B k r => Py.bind r k.


(** ** The parts of Python's [decimal] module the netting engine runs on

    [Decimal] values, the constructor from text, [==] and [+] under the
    default context, which the script never changes:
    [Context(prec=28, rounding=ROUND_HALF_EVEN, Emin=-999999, Emax=999999,
    clamp=0, traps=[InvalidOperation, DivisionByZero, Overflow])]. *)

Module PyDecimal.

(** A finite value is [(-1)^sign * coeff * 10^exp]. *)
Inductive Decimal : Type :=
| Finite (sign : bool) (coeff : N) (exp : Z)
| Infinity (sign : bool)
| NaN (sign : bool) (payload : N)
| sNaN (sign : bool) (payload : N).

Definition prec : Z := 28.
Definition Emax : Z := 999999.
Definition Emin : Z := -999999.
Definition Etiny : Z := Emin - prec + 1.
Definition Etop : Z := Emax - prec + 1.

(** Limits of the exact constructor (CPython's C implementation, 64 bit). *)
Definition MAX_EMAX : Z := 999999999999999999.
Definition MIN_ETINY : Z := -1999999999999999997.

Definition ZERO : Decimal := Finite false 0 0.

(** Number of decimal digits of the coefficient, [len(self._int)]; the
    coefficient zero is written 0 and has one digit. *)
Fixpoint ndigits_fuel (fuel : nat) (c : N) : Z :=
  match fuel with
  | O => 1
  | S f => if (c <? 10)%N then 1 else 1 + ndigits_fuel f (c / 10)%N
  end.

Definition ndigits (c : N) : Z := ndigits_fuel (N.to_nat (N.size c)) c.

Definition adjusted (c : N) (e : Z) : Z := ndigits c + e - 1.

(** *** The constructor [Decimal(text)]

    The text is stripped, underscores are removed, and what is left must be
    a sign followed by a number, by [Inf] or [Infinity], or by [NaN] or
    [sNaN] with optional digits, in any letter case. Digits are the ASCII
    digits here (the constructor also reads the other Unicode decimal
    digits). *)

Definition is_digit (c : ascii) : bool :=
  let n := N_of_ascii c in ((48 <=? n) && (n <=? 57))%N.

Definition digit_value (c : ascii) : N := (N_of_ascii c - 48)%N.

Fixpoint span_digits (l : list ascii) : list ascii * list ascii :=
  match l with
  | c :: l' =>
      if is_digit c then let '(ds, rest) := span_digits l' in (c :: ds, rest)
      else ([], l)
  | [] => ([], [])
  end.

(** [int(digits)], with [int('')] read as 0 where the caller allows it. *)
Definition int_of_digits (ds : list ascii) : N :=
  fold_left (fun acc d => (10 * acc + digit_value d)%N) ds 0%N.

Definition lower (c : ascii) : ascii :=
  let n := N_of_ascii c in
  if ((65 <=? n) && (n <=? 90))%N then ascii_of_N (n + 32) else c.

(** Case-insensitive comparison with a lower-case word. *)
Definition is_word (w : string) (l : list ascii) : bool :=
  String.eqb (string_of_list_ascii (List.map lower l)) w.

Definition split_sign (l : list ascii) : bool * list ascii :=
  match l with
  | "-"%char :: l' => (true, l')
  | "+"%char :: l' => (false, l')
  | _ => (false, l)
  end.

(** The exponent part [E[-+]?\d+] up to the end of the text. *)
Definition parse_exponent (l : list ascii) : option Z :=
  match l with
  | [] => Some 0
  | c :: l' =>
      if Ascii.eqb (lower c) "e" then
        let '(neg, l'') := split_sign l' in
        match span_digits l'' with
        | ((_ :: _) as ds, []) =>
            let v := Z.of_N (int_of_digits ds) in
            Some (if neg then - v else v)
        | _ => None
        end
      else None
  end.

(** A number: integer part, optional fraction, optional exponent, with at
    least one digit before the exponent. *)
Definition parse_number (l : list ascii) : option (N * Z) :=
  let '(ip, rest) := span_digits l in
  let '(fp, rest') :=
    match rest with
    | "."%char :: r => span_digits r
    | _ => ([], rest)
    end in
  match (ip ++ fp)%list with
  | [] => None
  | ds =>
      match parse_exponent rest' with
      | Some e => Some (int_of_digits ds, e - Z.of_nat (List.length fp))
      | None => None
      end
  end.

(** [NaN] or [sNaN] followed by diagnostic digits only. *)
Definition parse_nan (l : list ascii) : option (bool * N) :=
  let '(signalling, l') :=
    match l with
    | c :: r => if Ascii.eqb (lower c) "s" then (true, r) else (false, l)
    | [] => (false, l)
    end in
  if is_word "nan" (firstn 3 l') then
    match span_digits (skipn 3 l') with
    | (ds, []) => Some (signalling, int_of_digits ds)
    | _ => None
    end
  else None.

Definition Decimal_of_chars (text : list ascii) : result Decimal :=
  let t := remove_char "_" (strip_chars text) in
  let '(sign, body) := split_sign t in
  match parse_number body with
  | Some (c, e) =>
      if (e <? MIN_ETINY) || (MAX_EMAX <? adjusted c e)
      then Raise InvalidOperation
      else Ok (Finite sign c e)
  | None =>
      if is_word "inf" body || is_word "infinity" body then Ok (Infinity sign)
      else
        match parse_nan body with
        | Some (true, p) => Ok (sNaN sign p)
        | Some (false, p) => Ok (NaN sign p)
        | None => Raise InvalidOperation
        end
  end.

Definition Decimal_of_string (text : string) : result Decimal :=
  Decimal_of_chars (list_ascii_of_string text).

(** *** Rounding to the context: [Decimal._fix] *)

Definition fix_nan (sign : bool) (payload : N) : Decimal :=
  NaN sign (payload mod 10 ^ Z.to_N prec)%N.

(** ROUND_HALF_EVEN of [c / 10^k]. *)
Definition round_half_even (c : N) (k : Z) : N :=
  let p := (10 ^ Z.to_N k)%N in
  let q := (c / p)%N in
  let r := (c mod p)%N in
  if (p <? 2 * r)%N || ((2 * r =? p)%N && N.odd q) then (q + 1)%N else q.

Definition fix_finite (s : bool) (c : N) (e : Z) : result Decimal :=
  if (c =? 0)%N then Ok (Finite s 0 (Z.min (Z.max e Etiny) Emax))
  else
    let exp_min := ndigits c + e - prec in
    if Etop <? exp_min then Raise Overflow
    else
      let exp_min := Z.max exp_min Etiny in
      if e <? exp_min then
        let q := round_half_even c (exp_min - e) in
        if (10 ^ Z.to_N prec <=? q)%N then
          if Etop <? exp_min + 1 then Raise Overflow
          else Ok (Finite s (q / 10)%N (exp_min + 1))
        else Ok (Finite s q exp_min)
      else Ok (Finite s c e).

(** *** Arithmetic: [Decimal.__add__] and [Decimal.__eq__] *)

(** The integer [(-1)^s * c * 10^(e - q)], for [q <= e]. *)
Definition scaled (q : Z) (s : bool) (c : N) (e : Z) : Z :=
  let m := Z.of_N c * 10 ^ (e - q) in if s then - m else m.

(** [_normalize(op1, op2, prec)]: bring both operands to one exponent. The
    operand with the larger exponent is padded with zeros; when the other
    one is too small to matter after rounding it is first replaced by
    [1Eexp], so that the padding stays short. Returns both coefficients and
    the common exponent. *)
Definition normalize (ca : N) (ea : Z) (cb : N) (eb : Z) : N * N * Z :=
  if ea <? eb then
    let exp := eb + Z.min (-1) (ndigits cb - prec - 2) in
    let '(ca', ea') := if ndigits ca + ea - 1 <? exp then (1%N, exp) else (ca, ea) in
    (ca', (cb * 10 ^ Z.to_N (eb - ea'))%N, ea')
  else
    let exp := ea + Z.min (-1) (ndigits ca - prec - 2) in
    let '(cb', eb') := if ndigits cb + eb - 1 <? exp then (1%N, exp) else (cb, eb) in
    ((ca * 10 ^ Z.to_N (ea - eb'))%N, cb', eb').

Definition signed (s : bool) (c : N) : Z := if s then - Z.of_N c else Z.of_N c.

(** The finite case of [__add__] (the rounding mode is not ROUND_FLOOR, so
    a sum of opposite values is +0). *)
Definition add_finite (sa : bool) (ca : N) (ea : Z) (sb : bool) (cb : N) (eb : Z)
  : result Decimal :=
  let exp := Z.min ea eb in
  if (ca =? 0)%N && (cb =? 0)%N then fix_finite (sa && sb) 0 exp
  else if (ca =? 0)%N then
    let exp := Z.max exp (eb - prec - 1) in
    fix_finite sb (cb * 10 ^ Z.to_N (eb - exp))%N exp
  else if (cb =? 0)%N then
    let exp := Z.max exp (ea - prec - 1) in
    fix_finite sa (ca * 10 ^ Z.to_N (ea - exp))%N exp
  else
    let '(ca', cb', e) := normalize ca ea cb eb in
    let z := signed sa ca' + signed sb cb' in
    if z =? 0 then fix_finite false 0 exp
    else fix_finite (z <? 0) (Z.to_N (Z.abs z)) e.

Definition dec_add (a b : Decimal) : result Decimal :=
  match a, b with
  | sNaN _ _, _ => Raise InvalidOperation
  | _, sNaN _ _ => Raise InvalidOperation
  | NaN s p, _ => Ok (fix_nan s p)
  | _, NaN s p => Ok (fix_nan s p)
  | Infinity sa, Infinity sb =>
      if Bool.eqb sa sb then Ok (Infinity sa) else Raise InvalidOperation
  | Infinity sa, Finite _ _ _ => Ok (Infinity sa)
  | Finite _ _ _, Infinity sb => Ok (Infinity sb)
  | Finite sa ca ea, Finite sb cb eb => add_finite sa ca ea sb cb eb
  end.

(** [a == b]: a signalling NaN raises, a quiet NaN is equal to nothing,
    infinities compare by sign and finite values by value. *)
Definition dec_eq (a b : Decimal) : result bool :=
  match a, b with
  | sNaN _ _, _ => Raise InvalidOperation
  | _, sNaN _ _ => Raise InvalidOperation
  | NaN _ _, _ => Ok false
  | _, NaN _ _ => Ok false
  | Infinity sa, Infinity sb => Ok (Bool.eqb sa sb)
  | Infinity _, Finite _ _ _ => Ok false
  | Finite _ _ _, Infinity _ => Ok false
  | Finite sa ca ea, Finite sb cb eb =>
      let e := Z.min ea eb in
      Ok (scaled e sa ca ea =? scaled e sb cb eb)
  end.

End PyDecimal.

Import PyDecimal.

(** ** More of Python's [decimal]: [/], [quantize] and [str]

    What the output side of the netting script runs on: the division of
    [yield_ratio], and [quantize] with [ROUND_HALF_UP] followed by [str] in
    [format_decimal]. *)

Module PyDecimalOutput.

(** The exceptions of the output side: those of [Py.exn], the third signal
    the default context traps, and the exceptions of the path functions. *)
Inductive error : Type :=
| Signal (e : exn)
| DivisionByZero
| FileNotFoundError (msg : string)
| OSError
| StopIteration.

Inductive outcome (A : Type) : Type :=
| Returned (a : A)
| Raised (e : error).
Arguments Returned {A} a.
Arguments Raised {A} e.

(** A computation over [Py.exn], among those that can raise more. *)
Definition lift {A} (r : result A) : outcome A :=
  match r with
  | Ok a => Returned a
  | Raise e => Raised (Signal e)
  end.

Definition outcome_bind {A B} (r : outcome A) (k : A -> outcome B) : outcome B :=
  match r with
  | Returned a => k a
  | Raised e => Raised e
  end.

(** *** [Decimal.__truediv__] *)

(** An exact quotient is brought as close to the ideal exponent as its
    trailing zeros allow. *)
Fixpoint strip_zeros (fuel : nat) (coeff : N) (exp ideal : Z) : N * Z :=
  match fuel with
  | O => (coeff, exp)
  | S f =>
      if (exp <? ideal) && (coeff mod 10 =? 0)%N
      then strip_zeros f (coeff / 10)%N (exp + 1) ideal
      else (coeff, exp)
  end.

(** The quotient of two finite values: [prec + 1] digits or more of the
    quotient of the coefficients, with a last digit that tells an inexact
    quotient from a tie, then rounded by the context. *)
Definition div_finite (sa : bool) (ca : N) (ea : Z) (sb : bool) (cb : N) (eb : Z)
  : outcome Decimal :=
  let sign := xorb sa sb in
  if (cb =? 0)%N then
    if (ca =? 0)%N then Raised (Signal InvalidOperation) else Raised DivisionByZero
  else if (ca =? 0)%N then lift (fix_finite sign 0 (ea - eb))
  else
    let shift := ndigits cb - ndigits ca + prec + 1 in
    let exp := ea - eb - shift in
    let op1 := if 0 <=? shift then (ca * 10 ^ Z.to_N shift)%N else ca in
    let op2 := if 0 <=? shift then cb else (cb * 10 ^ Z.to_N (- shift))%N in
    let coeff := (op1 / op2)%N in
    let remainder := (op1 mod op2)%N in
    let '(coeff, exp) :=
      if (remainder =? 0)%N
      then strip_zeros (N.to_nat (N.size coeff)) coeff exp (ea - eb)
      else (if (coeff mod 5 =? 0)%N then (coeff + 1)%N else coeff, exp) in
    lift (fix_finite sign coeff exp).

Definition dec_div (a b : Decimal) : outcome Decimal :=
  match a, b with
  | sNaN _ _, _ => Raised (Signal InvalidOperation)
  | _, sNaN _ _ => Raised (Signal InvalidOperation)
  | NaN s p, _ => Returned (fix_nan s p)
  | _, NaN s p => Returned (fix_nan s p)
  | Infinity _, Infinity _ => Raised (Signal InvalidOperation)
  | Infinity sa, Finite sb _ _ => Returned (Infinity (xorb sa sb))
  | Finite sa _ _, Infinity sb => Returned (Finite (xorb sa sb) 0 Etiny)
  | Finite sa ca ea, Finite sb cb eb => div_finite sa ca ea sb cb eb
  end.

(** *** [Decimal.quantize(exp, rounding=ROUND_HALF_UP)] *)

(** ROUND_HALF_UP of [c / 10^k]: up when the first dropped digit is 5 or
    more. *)
Definition round_half_up (c : N) (k : Z) : N :=
  let p := (10 ^ Z.to_N k)%N in
  let q := (c / p)%N in
  let r := (c mod p)%N in
  if (p <=? 2 * r)%N then (q + 1)%N else q.

(** [_rescale(exp, ROUND_HALF_UP)] of a non-zero value: the coefficient at
    the exponent [exp]. A value below a tenth of [10^exp] is first replaced
    by [1E(exp-1)], which rounds to 0. *)
Definition rescale (c : N) (e exp : Z) : N :=
  if exp <=? e then (c * 10 ^ Z.to_N (e - exp))%N
  else if ndigits c + e - exp <? 0 then 0%N
  else round_half_up c (exp - e).

Definition quantize_finite (s : bool) (c : N) (e exp : Z) : result Decimal :=
  if negb ((Etiny <=? exp) && (exp <=? Emax)) then Raise InvalidOperation
  else if (c =? 0)%N then fix_finite s 0 exp
  else if Emax <? adjusted c e then Raise InvalidOperation
  else if prec <? adjusted c e - exp + 1 then Raise InvalidOperation
  else
    let ans := rescale c e exp in
    if Emax <? adjusted ans exp then Raise InvalidOperation
    else if prec <? ndigits ans then Raise InvalidOperation
    else fix_finite s ans exp.

Definition quantize (a exp : Decimal) : result Decimal :=
  match a, exp with
  | sNaN _ _, _ => Raise InvalidOperation
  | _, sNaN _ _ => Raise InvalidOperation
  | NaN s p, _ => Ok (fix_nan s p)
  | _, NaN s p => Ok (fix_nan s p)
  | Infinity s, Infinity _ => Ok (Infinity s)
  | Infinity _, Finite _ _ _ => Raise InvalidOperation
  | Finite _ _ _, Infinity _ => Raise InvalidOperation
  | Finite s c e, Finite _ _ ep => quantize_finite s c e ep
  end.

(** *** [str(Decimal)] *)

Definition digit_char (d : N) : ascii := ascii_of_N (48 + d).

(** The last [k] decimal digits of [n]. *)
Fixpoint last_digits (k : nat) (n : N) : list ascii :=
  match k with
  | O => []
  | S k' => last_digits k' (n / 10)%N ++ [digit_char (n mod 10)]
  end.

(** [str(n)] for a natural number, the digits [self._int] of a
    coefficient. *)
Definition digits_of (n : N) : list ascii := last_digits (Z.to_nat (ndigits n)) n.

Definition sign_chars (s : bool) : list ascii := if s then ["-"%char] else [].

Definition zeros (n : Z) : list ascii := repeat "0"%char (Z.to_nat n).

(** The diagnostic digits of a NaN; there are none for the payload 0. *)
Definition payload_chars (p : N) : list ascii :=
  if (p =? 0)%N then [] else digits_of p.

(** [Decimal.__str__]: plain notation when the exponent is at most 0 and
    there are fewer than six zeros after the point before the first digit,
    scientific notation with one digit before the point otherwise. *)
Definition to_chars (d : Decimal) : list ascii :=
  match d with
  | Infinity s => sign_chars s ++ list_ascii_of_string "Infinity"
  | NaN s p => sign_chars s ++ list_ascii_of_string "NaN" ++ payload_chars p
  | sNaN s p => sign_chars s ++ list_ascii_of_string "sNaN" ++ payload_chars p
  | Finite s c e =>
      let int := digits_of c in
      let leftdigits := e + ndigits c in
      let dotplace := if (e <=? 0) && (-6 <? leftdigits) then leftdigits else 1 in
      let intpart :=
        if dotplace <=? 0 then ["0"%char]
        else if ndigits c <=? dotplace then int ++ zeros (dotplace - ndigits c)
        else firstn (Z.to_nat dotplace) int in
      let fracpart :=
        if dotplace <=? 0 then "."%char :: zeros (- dotplace) ++ int
        else if ndigits c <=? dotplace then []
        else "."%char :: skipn (Z.to_nat dotplace) int in
      let exp :=
        if leftdigits =? dotplace then []
        else
          let x := leftdigits - dotplace in
          "E"%char :: (if x <? 0 then "-"%char else "+"%char) :: digits_of (Z.abs_N x) in
      sign_chars s ++ intpart ++ fracpart ++ exp
  end.

Definition Decimal_str (d : Decimal) : string := string_of_list_ascii (to_chars d).

End PyDecimalOutput.

Import PyDecimalOutput.

#[export] Instance outcome_ret : MRet outcome := @Returned.
#[export] Instance outcome_bind_inst : MBind outcome := fun A B k r => outcome_bind r k.

(** ** The netting engine: [scripty/aggregate_contracts.py] *)

Module Netting.

Definition COL_CONTRACT : string := "合约".
Definition COL_AMOUNT : string := "成交额".
Definition COL_PNL : string := "已实现盈亏".

(** A CSV row, [Dict[str, str]]. *)
Abbreviation Row := (gmap string string).

(** [class ContractAggregation]: cumulative cost and profit of a contract. *)
Record ContractAggregation : Type := {
  cost : Decimal;
  profit : Decimal
}.

(** [__init__]: both totals start at [Decimal("0")]. *)
Definition ContractAggregation_init : ContractAggregation :=
  {| cost := ZERO; profit := ZERO |}.

(** [self.cost += amount] *)
Definition add_cost (self : ContractAggregation) (amount : Decimal)
  : result ContractAggregation :=
  c ← dec_add (cost self) amount; mret {| cost := c; profit := profit self |}.

(** [self.profit += amount] *)
Definition add_profit (self : ContractAggregation) (amount : Decimal)
  : result ContractAggregation :=
  p ← dec_add (profit self) amount; mret {| cost := cost self; profit := p |}.

(** [parse_decimal]: only [InvalidOperation] is caught. *)
Definition parse_decimal (value : option string) : result Decimal :=
  match value with
  | None => Ok ZERO
  | Some value =>
      let text := strip_chars (list_ascii_of_string value) in
      match text with
      | [] => Ok ZERO
      | _ =>
          let text := remove_char "," text in
          match Decimal_of_chars text with
          | Raise InvalidOperation => Ok ZERO
          | r => r
          end
      end
  end.

(** *** [OrderedDict]: an association list in insertion order *)

Definition OrderedDict (V : Type) : Type := list (string * V).

Fixpoint od_get {V} (k : string) (d : OrderedDict V) : option V :=
  match d with
  | [] => None
  | (k', v) :: d' => if String.eqb k k' then Some v else od_get k d'
  end.

(** [d[k] = v]: an existing key keeps its position, a new one goes last. *)
Fixpoint od_set {V} (k : string) (v : V) (d : OrderedDict V) : OrderedDict V :=
  match d with
  | [] => [(k, v)]
  | (k', v') :: d' =>
      if String.eqb k k' then (k, v) :: d' else (k', v') :: od_set k v d'
  end.

(** [d.setdefault(k, v)]: the dictionary afterwards and the value bound to
    [k] in it. *)
Definition setdefault {V} (k : string) (v : V) (d : OrderedDict V)
  : OrderedDict V * V :=
  match od_get k d with
  | Some v' => (d, v')
  | None => (od_set k v d, v)
  end.

(** *** [aggregate_contracts] *)

(** [row.get("合约", "").strip()] *)
Definition row_contract (row : Row) : string :=
  strip (default "" (row !! COL_CONTRACT)).

(** The body of the loop. The bucket is an object stored in [totals] and
    updated in place, which is the write [od_set] after the update. *)
Definition process_row (totals : OrderedDict ContractAggregation) (row : Row)
  : result (OrderedDict ContractAggregation) :=
  let contract := row_contract row in
  if String.eqb contract "" then Ok totals
  else
    pnl ← parse_decimal (row !! COL_PNL);
    amount ← parse_decimal (row !! COL_AMOUNT);
    let '(totals, bucket) := setdefault contract ContractAggregation_init totals in
    is_zero ← dec_eq pnl ZERO;
    bucket' ← (if is_zero : bool then add_cost bucket amount else add_profit bucket pnl);
    mret (od_set contract bucket' totals).

Definition aggregate_contracts (rows : list Row)
  : result (OrderedDict ContractAggregation) :=
  for_each process_row rows [].

(** The bucket of a contract: the one in [totals], or the fresh one
    [setdefault] would store. *)
Definition bucket_of (totals : OrderedDict ContractAggregation) (c : string)
  : ContractAggregation :=
  default ContractAggregation_init (od_get c totals).

(** *** [load_rows] *)

Definition REQUIRED_FIELDS : list string := [COL_CONTRACT; COL_AMOUNT; COL_PNL].

(** [sorted] on strings (code point order, which is the byte order of the
    UTF-8 encodings). *)
Fixpoint insert_sorted (x : string) (l : list string) : list string :=
  match l with
  | [] => [x]
  | y :: l' => if String.leb x y then x :: l else y :: insert_sorted x l'
  end.

Definition sorted (l : list string) : list string :=
  fold_right insert_sorted [] l.

(** [", ".join(names)] *)
Fixpoint join (names : list string) : string :=
  match names with
  | [] => ""
  | [x] => x
  | x :: rest => x ++ ", " ++ join rest
  end.

Definition in_names (field : string) (names : list string) : bool :=
  existsb (String.eqb field) names.

(** [load_rows], given what [csv.DictReader] exposes: [fieldnames] ([None]
    for a file without a first line) and the rows it iterates over. The
    test evaluates [field not in reader.fieldnames] before
    [reader.fieldnames is None], and [x not in None] is a [TypeError]. *)
Definition load_rows {R : Type} (fieldnames : option (list string)) (rows : list R)
  : result (list R) :=
  match fieldnames with
  | None => Raise TypeError
  | Some names =>
      let missing := List.filter (fun field => negb (in_names field names)) REQUIRED_FIELDS in
      match missing with
      | [] => Ok rows
      | _ => Raise (ValueError ("Input CSV 缺少必需字段: " ++ join (sorted missing)))
      end
  end.

End Netting.

(** ** The output side of the netting script

    [yield_ratio], [format_decimal] and [write_output], and the functions
    that choose the input and the output file. *)

Module NettingOutput.

Import Netting.

Definition HEADER : list string := ["合约"; "总成本"; "总利润"; "收益率"].

(** [ContractAggregation.yield_ratio]: [self.cost == 0] is tested first. *)
Definition yield_ratio (self : ContractAggregation) : outcome Decimal :=
  is_zero ← lift (dec_eq (cost self) ZERO);
  if is_zero : bool then Returned ZERO else dec_div (profit self) (cost self).

(** [format_decimal(value, digits)]; ["0" * digits] is empty for a negative
    [digits]. *)
Definition format_decimal (value : Decimal) (digits : Z) : result string :=
  quantize_pattern ← Decimal_of_chars (list_ascii_of_string "1." ++ zeros digits);
  quantized ← quantize value quantize_pattern;
  mret (Decimal_str quantized).

(** The list handed to [writer.writerow] for one contract. The ratio is
    computed before the three cells are formatted. *)
Definition output_row (contract : string) (aggregation : ContractAggregation)
  : outcome (list string) :=
  ratio ← yield_ratio aggregation;
  cost_cell ← lift (format_decimal (cost aggregation) 6);
  profit_cell ← lift (format_decimal (profit aggregation) 6);
  ratio_cell ← lift (format_decimal ratio 6);
  mret [contract; cost_cell; profit_cell; ratio_cell].

(** The loop of [write_output] over [results.items()]: the rows written so
    far, and the exception that ended the loop if there was one. *)
Fixpoint write_rows (items : OrderedDict ContractAggregation) (written : list (list string))
  : list (list string) * option error :=
  match items with
  | [] => (written, None)
  | (contract, aggregation) :: rest =>
      match output_row contract aggregation with
      | Returned row => write_rows rest (written ++ [row])
      | Raised e => (written, Some e)
      end
  end.

(** [write_output], once the file is open: the rows the file holds when it
    is closed, and the exception that leaves the function, if any. *)
Definition write_output (results : OrderedDict ContractAggregation)
  : list (list string) * option error :=
  write_rows results [HEADER].

(** *** Input and output paths

    The functions are written over what they use of [pathlib]: [Path(text)],
    [str(path)], [path.parent], [path / name], [path.exists()] and
    [path.mkdir(parents=True, exist_ok=True)], which gives the file system
    afterwards and whether it returned ([false] is an [OSError]). *)
Class PathLib (FS Path : Type) : Type := {
  path_of : string -> Path;
  path_str : Path -> string;
  parent : Path -> Path;
  joinpath : Path -> string -> Path;
  path_exists : FS -> Path -> bool;
  mkdir : FS -> Path -> FS * bool
}.

Section Paths.

Context {FS Path : Type} `{PathLib FS Path}.

Definition DEFAULT_INPUT_ORDER : list Path :=
  [path_of "/in/test.csv"; path_of "in/test.csv"; path_of "scripty/in/test.csv"].

Definition DEFAULT_OUTPUT_BASES : list Path :=
  [path_of "/out"; path_of "out"; path_of "scripty/out"].

(** [if custom:] holds for a text that is not empty. *)
Definition given (custom : option string) : option string :=
  match custom with
  | Some text => if String.eqb text "" then None else Some text
  | None => None
  end.

(** [find_existing_path]: the first candidate that exists, and the first
    candidate when none does; [next] raises [StopIteration] when there is
    no candidate. *)
Definition find_existing_path (fs : FS) (candidates : list Path) : outcome Path :=
  match List.find (path_exists fs) candidates with
  | Some path => Returned path
  | None =>
      match candidates with
      | path :: _ => Returned path
      | [] => Raised StopIteration
      end
  end.

Definition resolve_input_path (fs : FS) (custom : option string) : outcome Path :=
  match given custom with
  | Some text =>
      let path := path_of text in
      if path_exists fs path then Returned path
      else Raised (FileNotFoundError ("Input file not found: " ++ path_str path))
  | None =>
      candidate ← find_existing_path fs DEFAULT_INPUT_ORDER;
      if path_exists fs candidate then Returned candidate
      else Raised (FileNotFoundError
                     ("Input CSV not found. Checked: "
                      ++ join (List.map path_str DEFAULT_INPUT_ORDER)))
  end.

(** The loop of [ensure_output_path] over the default directories: a
    directory whose [mkdir] raises [OSError] is passed over. *)
Fixpoint first_output_base (fs : FS) (bases : list Path) : FS * outcome Path :=
  match bases with
  | [] => (fs, Raised (FileNotFoundError "Unable to create any output directory"))
  | base_dir :: rest =>
      let '(fs', made) := mkdir fs base_dir in
      if (made : bool) && path_exists fs' base_dir
      then (fs', Returned (joinpath base_dir "contract_summary.csv"))
      else first_output_base fs' rest
  end.

(** [ensure_output_path]: the file system afterwards and the result. *)
Definition ensure_output_path (fs : FS) (custom : option string) : FS * outcome Path :=
  match given custom with
  | Some text =>
      let output_path := path_of text in
      let '(fs', made) := mkdir fs (parent output_path) in
      (fs', if made : bool then Returned output_path else Raised OSError)
  | None => first_output_base fs DEFAULT_OUTPUT_BASES
  end.

End Paths.

End NettingOutput.


(** ** Decimal values as numbers *)

Module DecimalOrder.

(** Comparison by value; a NaN compares with nothing. *)
Definition dec_compare (a b : Decimal) : option comparison :=
  match a, b with
  | Finite sa ca ea, Finite sb cb eb =>
      let e := Z.min ea eb in
      Some (scaled e sa ca ea ?= scaled e sb cb eb)
  | Finite _ _ _, Infinity sb => Some (if sb then Gt else Lt)
  | Infinity sa, Finite _ _ _ => Some (if sa then Lt else Gt)
  | Infinity sa, Infinity sb =>
      Some (if sa then (if sb then Eq else Lt) else (if sb then Gt else Eq))
  | _, _ => None
  end.

Definition dec_le (a b : Decimal) : bool :=
  match dec_compare a b with
  | Some Lt | Some Eq => true
  | _ => false
  end.

Definition dec_lt (a b : Decimal) : bool :=
  match dec_compare a b with
  | Some Lt => true
  | _ => false
  end.

(** Zero or above ([-0] included). *)
Definition dec_nonneg (d : Decimal) : bool := dec_le ZERO d.

(** The values the context hands out: at most 28 digits and an exponent
    not below [Etiny], an infinity, or a quiet NaN with a payload of at
    most 28 digits. *)
Definition held (d : Decimal) : Prop :=
  match d with
  | Finite _ c e => Z.of_N c < 10 ^ prec /\ Etiny <= e
  | Infinity _ => True
  | NaN _ p => Z.of_N p < 10 ^ prec
  | sNaN _ _ => False
  end.

(** [b] is [a] itself or a value not below it. *)
Definition not_decreased (a b : Decimal) : Prop := b = a \/ dec_le a b = true.

(** Every accumulator of the dictionary is a value the context holds. *)
Definition totals_held (totals : Netting.OrderedDict Netting.ContractAggregation) : Prop :=
  forall c b, Netting.od_get c totals = Some b ->
    held (Netting.cost b) /\ held (Netting.profit b).

End DecimalOrder.

(** ** Batches the context adds exactly

    An accumulator that has only seen finite values, none of them rounded,
    holds their exact sum [z * 10^q], where [q] is the least exponent seen
    (and at most 0, the exponent of the initial zero). *)

Module Exact.

Import Netting.

















End Exact.

(** ** The reconstruction engine: [scripty/process_excel.py] *)

Module Reconstruction.

(** *** Numbers

    pandas computes on [float64]. The engine is written over the operations
    it applies to them, so that what is proved holds for any carrier with
    these operations; [binary64] below is the IEEE 754 instance. *)
Class Float64 (F : Type) : Type := {
  f_zero : F;                 (* [0], [0.0] *)
  f_hundred : F;              (* [100] *)
  f_nan : F;                  (* what [errors='coerce'] puts for unreadable cells *)
  f_add : F -> F -> F;
  f_sub : F -> F -> F;
  f_mul : F -> F -> F;
  f_div : F -> F -> F;
  f_isnan : F -> bool;
  f_pos : F -> bool;          (* [x > 0] *)
  f_iszero : F -> bool;       (* [x == 0] *)
  f_format2 : F -> string     (* [format(x, ".2f")] *)
}.

(** What the proofs use of the arithmetic: zero is not positive, a positive
    number is neither zero nor NaN, and adding a positive number to zero or
    to a positive number gives a positive number. All hold in IEEE 754
    arithmetic (the sum may be [inf], which is positive). *)
Class Float64Laws (F : Type) `{Float64 F} : Prop := {
  pos_zero : f_pos f_zero = false;
  iszero_zero : f_iszero f_zero = true;
  pos_not_zero : forall x, f_pos x = true -> f_iszero x = false;
  pos_not_nan : forall x, f_pos x = true -> f_isnan x = false;
  add_pos : forall x y,
    f_iszero x = true \/ f_pos x = true -> f_pos y = true -> f_pos (f_add x y) = true
}.

Section Engine.

Context {F : Type} `{Float64 F}.

(** A cell of a numeric column, by what pandas makes of it: empty (NaN,
    which [dropna] removes), a text [to_numeric(errors='coerce')] cannot
    read and turns into NaN, or a cell it reads as the number [x]. *)
Inductive ncell : Type :=
| Blank
| Junk (text : string)
| Number (x : F).

Definition isna (c : ncell) : bool :=
  match c with Blank => true | _ => false end.

(** [pd.to_numeric(cell, errors='coerce')] *)
Definition to_numeric (c : ncell) : F :=
  match c with Number x => x | _ => f_nan end.

(** A row of [df_clean] (the rows of the sheet that have a time and an
    order number): the columns 合约, 委托时间(UTC), 买卖, 成交量, 成交均价
    and 成交额. The contract is [None] for an empty cell, the side is
    [None] when the cell holds no text. *)
Record order_row : Type := {
  contract : option string;
  order_time : Z;
  side : option string;
  quantity : ncell;
  avg_price : ncell;
  amount : ncell
}.

(** [Series.sum()]: NaN entries are skipped, the empty sum is 0. *)
Definition nansum (xs : list F) : F :=
  fold_left (fun acc x => if f_isnan x then acc else f_add acc x) xs f_zero.

(** [sort_values('委托时间(UTC)')], as a stable insertion sort (pandas
    leaves the order of rows with equal times open). *)
Fixpoint insert_by_time (r : order_row) (l : list order_row) : list order_row :=
  match l with
  | [] => [r]
  | y :: l' =>
      if order_time r <=? order_time y then r :: l else y :: insert_by_time r l'
  end.

Definition sort_values (l : list order_row) : list order_row :=
  fold_right insert_by_time [] l.

(** Rows in the order of their times. *)
Inductive time_sorted : list order_row -> Prop :=
| ts_nil : time_sorted []
| ts_cons r l :
    (forall x, In x l -> order_time r <= order_time x) -> time_sorted l ->
    time_sorted (r :: l).

(** [Series.str.contains('a|b', na=False)] on one cell. *)
Definition str_contains (markers : list string) (cell : option string) : bool :=
  match cell with
  | Some s => existsb (fun m => contains m s) markers
  | None => false
  end.

Definition has_symbol (symbol : string) (r : order_row) : bool :=
  match contract r with
  | Some c => String.eqb c symbol
  | None => false
  end.

(** [symbol_df]: the rows of the contract by time, then those whose 成交额
    reads as a positive number. *)
Definition symbol_rows (symbol : string) (df_clean : list order_row) : list order_row :=
  List.filter (fun r => f_pos (to_numeric (amount r)))
    (sort_values (List.filter (has_symbol symbol) df_clean)).

(** ['买' in first_order or '开多' in first_order]; [in] raises [TypeError]
    when [first_order] is not a string. *)
Definition first_is_long (first_order : option string) : result bool :=
  match first_order with
  | Some s => Ok (contains "买" s || contains "开多" s)
  | None => Raise TypeError
  end.

Definition open_markers (is_long : bool) : list string :=
  if is_long then ["买"; "开多"] else ["卖"; "开空"].

Definition close_markers (is_long : bool) : list string :=
  if is_long then ["卖"; "平"] else ["买"; "平"].

Definition open_orders (is_long : bool) (symbol_df : list order_row) : list order_row :=
  List.filter (fun r => str_contains (open_markers is_long) (side r)) symbol_df.

Definition close_orders (is_long : bool) (symbol_df : list order_row) : list order_row :=
  List.filter (fun r => str_contains (close_markers is_long) (side r)) symbol_df.

(** [orders.dropna(subset=['成交均价 ', '成交量'])] *)
Definition dropna_price_quantity (orders : list order_row) : list order_row :=
  List.filter (fun r => negb (isna (avg_price r)) && negb (isna (quantity r))) orders.

Definition price_times_quantity (r : order_row) : F :=
  f_mul (to_numeric (avg_price r)) (to_numeric (quantity r)).

(** Average price and total amount of a leg (both 0 for an empty leg or one
    without a row that has both cells). *)
Definition leg_stats (orders : list order_row) : F * F :=
  match orders with
  | [] => (f_zero, f_zero)
  | _ =>
      let valid := dropna_price_quantity orders in
      match valid with
      | [] => (f_zero, f_zero)
      | _ =>
          let total_quantity := nansum (List.map (fun r => to_numeric (quantity r)) valid) in
          let avg :=
            if f_pos total_quantity
            then f_div (nansum (List.map price_times_quantity valid)) total_quantity
            else f_zero in
          (avg, nansum (List.map (fun r => to_numeric (amount r)) valid))
      end
  end.

(** [Series.min()] and [Series.max()] of the order times ([None] stands for
    the empty leg, where the script keeps the default). *)
Definition time_min (orders : list order_row) : option Z :=
  match orders with
  | [] => None
  | r :: rest => Some (fold_left (fun m x => Z.min m (order_time x)) rest (order_time r))
  end.

Definition time_max (orders : list order_row) : option Z :=
  match orders with
  | [] => None
  | r :: rest => Some (fold_left (fun m x => Z.max m (order_time x)) rest (order_time r))
  end.

(** One entry of [trades]. *)
Record trade : Type := {
  t_symbol : string;            (* 币种 *)
  t_start : option Z;           (* 开始 *)
  t_end : option Z;             (* 结束 *)
  t_direction : string;         (* 多/空 *)
  t_open_avg : F;               (* 均价 *)
  t_open_total : F;             (* 总额 *)
  t_close_avg : F;              (* 平仓均价 *)
  t_close_total : F;            (* 平仓总额 *)
  t_rate : string;              (* 收益率 *)
  t_profit : F                  (* 收益总额 *)
}.

(** The body of the loop over the contracts: [None] is [continue]. *)
Definition process_symbol (symbol : string) (df_clean : list order_row)
  : result (option trade) :=
  let symbol_df := symbol_rows symbol df_clean in
  match symbol_df with
  | [] => Ok None
  | first :: _ =>
      is_long ← first_is_long (side first);
      let direction := if is_long : bool then "多" else "空" in
      let opens := open_orders is_long symbol_df in
      let closes := close_orders is_long symbol_df in
      let '(open_avg_price, open_total_amount) := leg_stats opens in
      let start_time := time_min opens in
      let '(close_avg_price, close_total_amount) := leg_stats closes in
      let end_time := match time_max closes with Some t => Some t | None => start_time end in
      let profit_amount :=
        if is_long then f_sub close_total_amount open_total_amount
        else f_sub open_total_amount close_total_amount in
      let profit_rate :=
        if f_pos open_total_amount
        then f_mul (f_div profit_amount open_total_amount) f_hundred
        else f_zero in
      Ok (Some {| t_symbol := symbol; t_start := start_time; t_end := end_time;
                  t_direction := direction;
                  t_open_avg := open_avg_price; t_open_total := open_total_amount;
                  t_close_avg := close_avg_price; t_close_total := close_total_amount;
                  t_rate := f_format2 profit_rate ++ "%";
                  t_profit := profit_amount |})
  end.

(** [Series.unique()]: first occurrences, in order. *)
Fixpoint unique (l : list (option string)) : list (option string) :=
  match l with
  | [] => []
  | x :: l' => x :: List.filter (fun y => negb (bool_decide (x = y))) (unique l')
  end.

(** The loop of [process_trading_data] over [df_clean]; an exception is
    caught at the end of the function, which then calls [sys.exit(1)]. *)
Definition process_trading_data (df_clean : list order_row) : result (list trade) :=
  let step trades symbol :=
    match symbol with
    | None => Ok trades
    | Some s =>
        t ← process_symbol s df_clean;
        Ok (match t with Some t => trades ++ [t] | None => trades end)
    end in
  match for_each step (unique (List.map contract df_clean)) [] with
  | Ok trades => Ok trades
  | Raise _ => Raise (SystemExit 1)
  end.

(** *** The weighted average as the specification words it

    "Restrict to rows with both a parseable average price and a parseable
    quantity; open volume-weighted average price = sum(price * quantity) /
    sum(quantity) over that restricted set, or zero if sum(quantity) is
    zero." *)
Definition parseable (c : ncell) : bool := negb (f_isnan (to_numeric c)).

Definition spec_weighted_average (orders : list order_row) : F :=
  let rows := List.filter (fun r => parseable (avg_price r) && parseable (quantity r)) orders in
  let total_quantity := nansum (List.map (fun r => to_numeric (quantity r)) rows) in
  if f_iszero total_quantity then f_zero
  else f_div (nansum (List.map price_times_quantity rows)) total_quantity.

End Engine.

Arguments ncell F : clear implicits.
Arguments order_row F : clear implicits.
Arguments trade F : clear implicits.

End Reconstruction.

(** ** Two carriers for the numbers of the reconstruction engine *)

Module Carriers.

Import Reconstruction.

(** [str(n)] for a natural number. *)
Definition string_of_N (n : N) : string := NilEmpty.string_of_uint (N.to_uint n).

(** The text of [n / 100] with two fractional digits. *)
Definition hundredths (negative : bool) (n : N) : string :=
  let frac := (n mod 100)%N in
  (if negative then "-" else "") ++ string_of_N (n / 100) ++ "."
  ++ string_of_N (frac / 10) ++ string_of_N (frac mod 10).


(** The integer nearest to [a / b], ties to even ([b] positive). *)
Definition div_half_even (a b : N) : N :=
  let q := (a / b)%N in
  let r := (a mod b)%N in
  if (b <? 2 * r)%N || ((2 * r =? b)%N && N.odd q) then (q + 1)%N else q.

(** *** IEEE 754 binary64 *)

(** [format(x, ".2f")]: the exact value of [x], rounded half-even to two
    fractional digits. *)
Definition format_2f (x : float) : string :=
  match Prim2SF x with
  | S754_nan => "nan"
  | S754_infinity s => if s then "-inf" else "inf"
  | S754_zero s => if s then "-0.00" else "0.00"
  | S754_finite s m e =>
      let n :=
        match e with
        | Z.neg k => div_half_even (N.pos m * 100) (2 ^ N.pos k)
        | _ => (N.pos m * 100 * 2 ^ Z.to_N e)%N
        end in
      hundredths s n
  end.

#[export] Instance binary64 : Float64 float := {|
  f_zero := 0%float;
  f_hundred := 100%float;
  f_nan := PrimFloat.nan;
  f_add := PrimFloat.add;
  f_sub := PrimFloat.sub;
  f_mul := PrimFloat.mul;
  f_div := PrimFloat.div;
  f_isnan := PrimFloat.is_nan;
  f_pos := fun x => PrimFloat.ltb 0 x;
  f_iszero := fun x => PrimFloat.eqb x 0;
  f_format2 := format_2f
|}.

(** *** Exact rationals with a NaN *)

Inductive exact : Type :=
| ENaN
| EVal (q : Q).

Definition exact_lift (op : Q -> Q -> Q) (a b : exact) : exact :=
  match a, b with
  | EVal x, EVal y => EVal (Qred (op x y))
  | _, _ => ENaN
  end.

Definition exact_div (a b : exact) : exact :=
  match a, b with
  | EVal x, EVal y => if (Qnum y =? 0)%Z then ENaN else EVal (Qred (x / y))
  | _, _ => ENaN
  end.

Definition exact_format (a : exact) : string :=
  match a with
  | ENaN => "nan"
  | EVal q =>
      hundredths (Qnum q <? 0)%Z
        (div_half_even (Z.to_N (Z.abs (Qnum q)) * 100) (N.pos (Qden q)))
  end.

#[export] Instance exact_numbers : Float64 exact := {|
  f_zero := EVal 0;
  f_hundred := EVal 100;
  f_nan := ENaN;
  f_add := exact_lift Qplus;
  f_sub := exact_lift Qminus;
  f_mul := exact_lift Qmult;
  f_div := exact_div;
  f_isnan := fun a => match a with ENaN => true | EVal _ => false end;
  f_pos := fun a => match a with ENaN => false | EVal q => (0 <? Qnum q)%Z end;
  f_iszero := fun a => match a with ENaN => false | EVal q => (Qnum q =? 0)%Z end;
  f_format2 := exact_format
|}.

End Carriers.

(** ** Sample inputs *)

Module Samples.

Import Netting Reconstruction Carriers.

(** A CSV row with the three columns of the netting engine. *)
Definition csv_row (contract amount pnl : string) : Row :=
  {[ COL_CONTRACT := contract; COL_AMOUNT := amount; COL_PNL := pnl ]}.




(** A realized loss, a negative notional, and a realized P&L cell that
    holds a signalling NaN. *)
Definition loss : Row := csv_row "BTC" "0" "-5".
Definition negative_notional : Row := csv_row "BTC" "-5" "0".
Definition signalling : Row := csv_row "BTC" "4" "sNaN".

(** A spreadsheet row of the reconstruction engine, in binary64. *)
Definition order (symbol : string) (time : Z) (side : option string)
    (quantity avg_price amount : ncell float) : order_row float :=
  {| contract := Some symbol; order_time := time; side := side;
     quantity := quantity; avg_price := avg_price; amount := amount |}.


(** A long position opened by one order, then an order that buys to close
    a short, then one that opens a short. *)
Definition mixed_sides : list (order_row float) :=
  [ order "BTC" 1 (Some "买入开多") (Number 1%float) (Number 100%float) (Number 100%float);
    order "BTC" 2 (Some "买入平空") (Number 1%float) (Number 100%float) (Number 100%float);
    order "BTC" 3 (Some "开空") (Number 1%float) (Number 100%float) (Number 100%float) ].

(** A leg of two orders of quantity 1; the first has no readable price. *)
Definition unreadable_price : list (order_row float) :=
  [ order "BTC" 1 (Some "买") (Number 1%float) (Junk "--") (Number 20%float);
    order "BTC" 2 (Some "买") (Number 1%float) (Number 10%float) (Number 10%float) ].

(** A contract whose first order has an empty side cell. *)
Definition empty_side : list (order_row float) :=
  [ order "ETH" 1 None (Number 1%float) (Number 100%float) (Number 100%float);
    order "ETH" 2 (Some "卖") (Number 1%float) (Number 110%float) (Number 110%float) ].

(** Two buys, 2 at 10 and 1 at 20. *)
Definition two_buys : list (order_row float) :=
  [ order "BTC" 1 (Some "买") (Number 2%float) (Number 10%float) (Number 20%float);
    order "BTC" 2 (Some "买") (Number 1%float) (Number 20%float) (Number 20%float) ].


End Samples.

(** * Facts about the decimal arithmetic *)

Section DecimalFacts.

(** ** The model at work *)

Example Decimal_zero : Decimal_of_string "0" = Ok ZERO.
Proof. reflexivity. Qed.

Example Decimal_texts :
  Decimal_of_string " 1_000.50 " = Ok (Finite false 100050 (-2)) /\
  Decimal_of_string "-2.5E+3" = Ok (Finite true 25 2) /\
  Decimal_of_string "Infinity" = Ok (Infinity false) /\
  Decimal_of_string "-sNaN12" = Ok (sNaN true 12) /\
  Decimal_of_string "1,5" = Raise InvalidOperation /\
  Decimal_of_string "." = Raise InvalidOperation.
Proof. by vm_compute. Qed.

(** Sums keep 28 digits, ties go to the even neighbour, and the traps of the
    default context raise. *)
Example dec_add_rounds :
  dec_add (Finite false (10 ^ 28) 0) (Finite false 4 0) = Ok (Finite false (10 ^ 27) 1) /\
  dec_add (Finite false (10 ^ 28) 0) (Finite false 5 0) = Ok (Finite false (10 ^ 27) 1) /\
  dec_add (Finite false (10 ^ 28) 0) (Finite false 15 0) = Ok (Finite false (10 ^ 27 + 2) 1) /\
  dec_add (Finite false 5 (-1)) (Finite true 50 (-2)) = Ok (Finite false 0 (-2)) /\
  dec_add (Finite false 9 999999) (Finite false 9 999999) = Raise Overflow /\
  dec_add (Infinity false) (Infinity true) = Raise InvalidOperation /\
  dec_eq (sNaN false 0) ZERO = Raise InvalidOperation /\
  dec_eq (NaN false 0) ZERO = Ok false.
Proof. by vm_compute. Qed.

Lemma pow10_pos (k : Z) : 0 <= k -> 0 < 10 ^ k.
Proof. intros. apply Z.pow_pos_nonneg; lia. Qed.

Lemma pow10_add (a b : Z) : 0 <= a -> 0 <= b -> 10 ^ a * 10 ^ b = 10 ^ (a + b).
Proof. intros. by rewrite Z.pow_add_r. Qed.

Lemma pow10_le (a b : Z) : 0 <= a <= b -> 10 ^ a <= 10 ^ b.
Proof. intros. apply Z.pow_le_mono_r; lia. Qed.


Lemma N_pow10_Z (k : Z) : 0 <= k -> Z.of_N (10 ^ Z.to_N k) = 10 ^ k.
Proof. intros. rewrite N2Z.inj_pow, Z2N.id by done. reflexivity. Qed.

(** ** Digits *)

Lemma ndigits_fuel_pos (fuel : nat) (c : N) : 1 <= ndigits_fuel fuel c.
Proof.
  revert c. induction fuel as [|f IH]; intros c; simpl; [lia|].
  destruct (c <? 10)%N; [lia|]. specialize (IH (c / 10)%N). lia.
Qed.

Lemma ndigits_fuel_lower (fuel : nat) (c : N) :
  (0 < c)%N -> 10 ^ (ndigits_fuel fuel c - 1) <= Z.of_N c.
Proof.
  revert c. induction fuel as [|f IH]; intros c Hc; simpl; [simpl; lia|].
  destruct (c <? 10)%N eqn:E; [simpl; lia|].
  apply N.ltb_ge in E.
  assert (Hq : (0 < c / 10)%N).
  { apply N.div_str_pos. lia. }
  specialize (IH _ Hq).
  pose proof (ndigits_fuel_pos f (c / 10)%N).
  replace (1 + ndigits_fuel f (c / 10)%N - 1) with (1 + (ndigits_fuel f (c / 10)%N - 1)) by lia.
  rewrite Z.pow_add_r by lia. change (10 ^ 1) with 10.
  pose proof (N.Div0.mul_div_le c 10).
  rewrite N2Z.inj_div in IH. change (Z.of_N 10) with 10 in IH.
  pose proof (Z.mul_div_le (Z.of_N c) 10). lia.
Qed.

Lemma ndigits_pos (c : N) : 1 <= ndigits c.
Proof. apply ndigits_fuel_pos. Qed.

Lemma ndigits_lower (c : N) : (0 < c)%N -> 10 ^ (ndigits c - 1) <= Z.of_N c.
Proof. apply ndigits_fuel_lower. Qed.


(** ** Values the context holds unchanged *)






End DecimalFacts.

Import Exact.

Section ExactFacts.


End ExactFacts.


(** * Rounding never passes a value the context holds *)

Import DecimalOrder.

Section Rounding.

Lemma ndigits_fuel_upper (fuel : nat) (c : N) :
  Z.of_N c < 2 ^ Z.of_nat fuel -> Z.of_N c < 10 ^ ndigits_fuel fuel c.
Proof.
  revert c. induction fuel as [|f IH]; intros c Hc.
  - simpl in *. lia.
  - cbn [ndigits_fuel]. destruct (c <? 10)%N eqn:E.
    + apply N.ltb_lt in E. simpl. lia.
    + apply N.ltb_ge in E.
      rewrite Nat2Z.inj_succ, Z.pow_succ_r in Hc by lia.
      assert (Hq : Z.of_N (c / 10) < 2 ^ Z.of_nat f).
      { rewrite N2Z.inj_div. change (Z.of_N 10) with 10.
        apply Z.div_lt_upper_bound; lia. }
      specialize (IH _ Hq). pose proof (ndigits_fuel_pos f (c / 10)%N).
      rewrite Z.pow_add_r by lia. change (10 ^ 1) with 10.
      rewrite N2Z.inj_div in IH. change (Z.of_N 10) with 10 in IH.
      pose proof (Z.div_mod (Z.of_N c) 10 ltac:(lia)).
      pose proof (Z.mod_pos_bound (Z.of_N c) 10 ltac:(lia)). lia.
Qed.

Lemma ndigits_upper (c : N) : Z.of_N c < 10 ^ ndigits c.
Proof.
  apply ndigits_fuel_upper. rewrite N_nat_Z.
  pose proof (N.size_gt c) as H. apply N2Z.inj_lt in H.
  by rewrite N2Z.inj_pow in H.
Qed.

(** [round_half_even] is the quotient or, when something is cut off, the
    quotient plus one. *)
Lemma round_half_even_cases (c : N) (k : Z) :
  0 <= k ->
  let p := 10 ^ k in
  let q := Z.of_N (round_half_even c k) in
  q = Z.of_N c / p \/ (q = Z.of_N c / p + 1 /\ 0 < Z.of_N c mod p).
Proof.
  intros Hk p q. unfold q, round_half_even.
  assert (Hp : Z.of_N (10 ^ Z.to_N k) = p) by (by apply N_pow10_Z).
  assert (Hp0 : 0 < p) by (by apply pow10_pos).
  destruct (_ || _) eqn:E.
  - right. rewrite N2Z.inj_add, N2Z.inj_div, Hp. split; [done|].
    apply orb_true_iff in E as [E|E].
    + apply N.ltb_lt in E. apply N2Z.inj_lt in E.
      rewrite N2Z.inj_mul, N2Z.inj_mod, Hp in E. change (Z.of_N 2) with 2 in E. lia.
    + apply andb_true_iff in E as [E _]. apply N.eqb_eq in E.
      apply (f_equal Z.of_N) in E.
      rewrite N2Z.inj_mul, N2Z.inj_mod, Hp in E. change (Z.of_N 2) with 2 in E. lia.
  - left. by rewrite N2Z.inj_div, Hp.
Qed.

(** The value of a finite decimal in units of [10^lo]. *)
Lemma scaled_rescale (lo m : Z) (s : bool) (c : N) (e : Z) :
  lo <= m <= e -> scaled lo s c e = scaled m s c e * 10 ^ (m - lo).
Proof.
  intros H. unfold scaled.
  replace (e - lo) with ((e - m) + (m - lo)) by lia.
  rewrite <- pow10_add by lia. destruct s; lia.
Qed.

Lemma dec_le_units (lo : Z) (sa : bool) (ca : N) (ea : Z) (sb : bool) (cb : N) (eb : Z) :
  lo <= ea -> lo <= eb ->
  dec_le (Finite sa ca ea) (Finite sb cb eb) = true <->
  scaled lo sa ca ea <= scaled lo sb cb eb.
Proof.
  intros Ha Hb. unfold dec_le, dec_compare.
  set (m := Z.min ea eb).
  rewrite (scaled_rescale lo m sa ca ea), (scaled_rescale lo m sb cb eb) by (unfold m; lia).
  pose proof (pow10_pos (m - lo) ltac:(unfold m; lia)) as Hp.
  destruct (Z.compare_spec (scaled m sa ca ea) (scaled m sb cb eb)); split; intros;
    try done; try nia.
Qed.

Lemma scaled_sign (lo : Z) (s : bool) (c : N) (e : Z) :
  lo <= e -> (scaled lo s c e <= 0 <-> signed s c <= 0).
Proof.
  intros H. unfold scaled, signed. pose proof (pow10_pos (e - lo) ltac:(lia)).
  destruct s; split; intros; nia.
Qed.

(** The arithmetic of one rounding step. [A] is the size of a held value,
    [cz * U] the size of the exact result and [qz * G] that of the rounded
    one, all in the same unit; [G = p * U] is the spacing of the rounded
    values. A held value is a multiple of [G], or lies below the smallest
    rounded value of that spacing. *)
Lemma round_core (sa s : bool) (A cz U p f rem qz G : Z) :
  0 <= A -> 0 < U -> 0 < p -> cz = p * f + rem -> 0 <= rem < p -> 0 <= f ->
  qz = f \/ (qz = f + 1 /\ 0 < rem) ->
  G = p * U ->
  (exists n, A = n * G) \/ (A < 10 ^ 27 * G /\ 10 ^ 27 <= f) ->
  (if sa then - A else A) <= (if s then - (cz * U) else cz * U) ->
  (if sa then - A else A) <= (if s then - (qz * G) else qz * G).
Proof.
  intros HA HU Hp Hcz Hrem Hf Hq HG Hheld Hle.
  assert (HG0 : 0 < G) by nia.
  assert (HcU : cz * U = f * G + rem * U) by (subst cz G; ring).
  assert (HremU : 0 <= rem * U < G) by nia.
  assert (Hqf : f <= qz <= f + 1) by lia.
  destruct s.
  - (* the exact result is not above zero *)
    destruct sa.
    + assert (HA' : f * G + rem * U <= A) by lia.
      assert (Hgoal : qz * G <= A); [|lia].
      destruct Hheld as [[n Hn]|[Hsmall Hbig]].
      * subst A. destruct Hq as [->|[-> Hr]].
        -- nia.
        -- assert (f < n) by nia. nia.
      * exfalso. nia.
    + assert (cz * U <= 0) by lia.
      assert (f = 0 /\ rem = 0) as [-> ->] by nia.
      destruct Hq as [->|[_ Hr]]; lia.
  - (* the exact result is not below zero *)
    destruct sa; [nia|].
    assert (HA' : A <= f * G + rem * U) by lia.
    assert (Hgoal : A <= f * G); [|nia].
    destruct Hheld as [[n Hn]|[Hsmall Hbig]].
    + subst A. assert (n <= f) by nia. nia.
    + nia.
Qed.

(** Rounding the exact result [x] cannot pass a held value [a] that is not
    above [x]. *)
Lemma fix_finite_above (sa : bool) (ca : N) (ea : Z) (s : bool) (c : N) (e : Z)
    (lo : Z) (r : Decimal) :
  Z.of_N ca < 10 ^ prec -> Etiny <= ea -> lo <= ea -> lo <= e ->
  scaled lo sa ca ea <= scaled lo s c e ->
  fix_finite s c e = Ok r ->
  dec_le (Finite sa ca ea) r = true.
Proof.
  intros Hca Hea Hloa Hloe Hle. unfold fix_finite.
  destruct (c =? 0)%N eqn:Ec0.
  { apply N.eqb_eq in Ec0. subst c. intros [= <-].
    set (e' := Z.min (Z.max e Etiny) Emax).
    apply (dec_le_units (Z.min ea e')); [lia..|].
    assert (H0 : scaled lo s 0 e = 0) by (unfold scaled; by destruct s).
    assert (H0' : scaled (Z.min ea e') s 0 e' = 0) by (unfold scaled; by destruct s).
    rewrite H0 in Hle. rewrite H0'.
    apply scaled_sign; [lia|]. by apply (scaled_sign lo sa ca ea) in Hle. }
  apply N.eqb_neq in Ec0.
  set (exp_min0 := ndigits c + e - prec).
  destruct (Etop <? exp_min0); [discriminate|].
  set (exp_min := Z.max exp_min0 Etiny).
  destruct (e <? exp_min) eqn:Eround; cycle 1.
  { intros [= <-]. by apply (dec_le_units lo). }
  apply Z.ltb_lt in Eround.
  set (k := exp_min - e). assert (Hk : 0 < k) by (unfold k; lia).
  pose proof (round_half_even_cases c k ltac:(lia)) as Hq. cbv zeta in Hq.
  set (q := round_half_even c k) in *.
  set (cz := Z.of_N c) in *. set (qz := Z.of_N q) in *.
  set (p := 10 ^ k) in *. set (U := 10 ^ (e - lo)). set (G := 10 ^ (exp_min - lo)).
  assert (Hp : 0 < p) by (apply pow10_pos; lia).
  assert (HU : 0 < U) by (apply pow10_pos; lia).
  assert (HG : G = p * U).
  { unfold G, p, U, k. rewrite pow10_add by lia. f_equal. lia. }
  pose proof (ndigits_upper c) as Hup. pose proof (ndigits_lower c ltac:(lia)) as Hlow.
  pose proof (ndigits_pos c) as Hnd.
  assert (Hf0 : 0 <= cz / p) by (apply Z.div_pos; lia).
  assert (Hf28 : cz / p < 10 ^ prec).
  { apply Z.div_lt_upper_bound; [done|].
    eapply Z.lt_le_trans; [exact Hup|].
    unfold p. rewrite pow10_add by (unfold prec; lia).
    apply pow10_le. unfold k, exp_min, exp_min0, prec in *. lia. }
  (* the value of the result, whether or not the rounding carries *)
  assert (Hcore : scaled lo sa ca ea <= (if s then - (qz * G) else qz * G)).
  { set (A := Z.of_N ca * 10 ^ (ea - lo)).
    assert (HA : 0 <= A).
    { unfold A. pose proof (pow10_pos (ea - lo) ltac:(lia)). nia. }
    change (scaled lo sa ca ea) with (if sa then - A else A) in Hle |- *.
    change (scaled lo s c e) with (if s then - (cz * U) else cz * U) in Hle.
    apply (round_core sa s A cz U p (cz / p) (cz mod p) qz G); try done.
    - apply Z.div_mod. lia.
    - apply Z.mod_pos_bound. lia.
    - destruct (Z_le_gt_dec exp_min ea) as [Hge|Hlt].
      + left. exists (Z.of_N ca * 10 ^ (ea - exp_min)).
        unfold A, G. rewrite <- Z.mul_assoc, pow10_add by lia. do 2 f_equal. lia.
      + right.
        assert (Hk' : k = ndigits c - prec) by (unfold k, exp_min, exp_min0 in *; lia).
        split.
        * unfold A, G.
          assert (Hstep : 10 ^ (ea - lo) * 10 <= 10 ^ (exp_min - lo)).
          { change 10 with (10 ^ 1) at 2. rewrite pow10_add by lia.
            apply pow10_le. lia. }
          pose proof (pow10_pos (ea - lo) ltac:(lia)).
          unfold prec in Hca. change (10 ^ 28) with (10 ^ 27 * 10) in Hca. nia.
        * apply Z.div_le_lower_bound; [done|].
          unfold p. rewrite Z.mul_comm, pow10_add by lia.
          replace (27 + k) with (ndigits c - 1) by (unfold prec in Hk'; lia). exact Hlow. }
  destruct (10 ^ Z.to_N prec <=? q)%N eqn:Ecarry.
  - apply N.leb_le, N2Z.inj_le in Ecarry. rewrite N_pow10_Z in Ecarry by done.
    fold qz in Ecarry.
    destruct (Etop <? exp_min + 1); [discriminate|]. intros [= <-].
    assert (Hqz : qz = 10 ^ prec) by lia.
    apply (dec_le_units lo); [lia..|].
    assert (Hr : scaled lo s (q / 10) (exp_min + 1) = if s then - (qz * G) else qz * G).
    { unfold scaled. rewrite N2Z.inj_div. fold qz. rewrite Hqz.
      change (Z.of_N 10) with 10. change (10 ^ prec / 10) with (10 ^ 27).
      replace (exp_min + 1 - lo) with (1 + (exp_min - lo)) by lia.
      rewrite <- pow10_add by lia. fold G. change (10 ^ 1) with 10.
      change (10 ^ prec) with (10 ^ 27 * 10). destruct s; lia. }
    by rewrite Hr.
  - intros [= <-]. apply (dec_le_units lo); [lia..|]. exact Hcore.
Qed.

(** After [normalize], adding a positive operand gives an integer that is
    not below the first operand, in units of the common exponent. *)
Lemma normalize_above (sa : bool) (ca : N) (ea : Z) (cb : N) (eb : Z)
    (ca' cb' : N) (e' : Z) :
  (0 < ca)%N -> (0 < cb)%N ->
  normalize ca ea cb eb = (ca', cb', e') ->
  scaled (Z.min ea e') sa ca ea
    <= (signed sa ca' + Z.of_N cb') * 10 ^ (e' - Z.min ea e').
Proof.
  intros Ha Hb. unfold normalize.
  pose proof (ndigits_pos ca) as Hpa. pose proof (ndigits_pos cb) as Hpb.
  pose proof (ndigits_upper ca) as Hua.
  destruct (ea <? eb) eqn:E; [apply Z.ltb_lt in E | apply Z.ltb_ge in E].
  - set (exp_n := eb + Z.min (-1) (ndigits cb - prec - 2)).
    destruct (ndigits ca + ea - 1 <? exp_n) eqn:E';
      [apply Z.ltb_lt in E' | apply Z.ltb_ge in E']; intros [= <- <- <-].
    + (* the first operand is replaced by 1Eexp_n *)
      replace (Z.min ea exp_n) with ea by lia.
      unfold scaled. rewrite Z.sub_diag, Z.mul_1_r.
      rewrite N2Z.inj_mul, N_pow10_Z by (unfold exp_n; lia).
      set (T := 10 ^ (exp_n - ea)).
      assert (HT : Z.of_N ca < T).
      { eapply Z.lt_le_trans; [exact Hua|]. apply pow10_le. lia. }
      assert (Hpad : 10 <= 10 ^ (eb - exp_n)).
      { change 10 with (10 ^ 1) at 1. apply pow10_le. unfold exp_n. lia. }
      set (B := Z.of_N cb * 10 ^ (eb - exp_n)).
      assert (HB : 10 <= B) by (unfold B; nia).
      assert (Hz : 9 <= signed sa 1 + B) by (unfold signed; destruct sa; lia).
      assert (HzT : 9 * T <= (signed sa 1 + B) * T) by (apply Z.mul_le_mono_nonneg_r; lia).
      destruct sa; lia.
    + replace (Z.min ea ea) with ea by lia.
      unfold scaled. rewrite Z.sub_diag, Z.mul_1_r.
      rewrite N2Z.inj_mul, N_pow10_Z by lia.
      pose proof (pow10_pos (eb - ea) ltac:(lia)).
      unfold signed. destruct sa; nia.
  - set (exp_n := ea + Z.min (-1) (ndigits ca - prec - 2)).
    destruct (ndigits cb + eb - 1 <? exp_n) eqn:E';
      [apply Z.ltb_lt in E' | apply Z.ltb_ge in E']; intros [= <- <- <-].
    + replace (Z.min ea exp_n) with exp_n by (unfold exp_n; lia).
      unfold scaled, signed. rewrite Z.sub_diag, Z.mul_1_r.
      rewrite N2Z.inj_mul, N_pow10_Z by (unfold exp_n; lia).
      change (Z.of_N 1) with 1. destruct sa; lia.
    + replace (Z.min ea eb) with eb by lia.
      unfold scaled, signed. rewrite Z.sub_diag, Z.mul_1_r.
      rewrite N2Z.inj_mul, N_pow10_Z by lia.
      destruct sa; lia.
Qed.

(** Adding a value that is not negative to a held value gives a result that
    is not below it. *)
Lemma add_finite_not_below (sa : bool) (ca : N) (ea : Z) (sb : bool) (cb : N) (eb : Z)
    (r : Decimal) :
  Z.of_N ca < 10 ^ prec -> Etiny <= ea -> 0 <= signed sb cb ->
  add_finite sa ca ea sb cb eb = Ok r ->
  dec_le (Finite sa ca ea) r = true.
Proof.
  intros Hca Hea Hb. unfold add_finite.
  set (exp := Z.min ea eb).
  destruct (ca =? 0)%N eqn:Ea; [apply N.eqb_eq in Ea | apply N.eqb_neq in Ea];
    (destruct (cb =? 0)%N eqn:Eb; [apply N.eqb_eq in Eb | apply N.eqb_neq in Eb]);
    cbn [andb].
  - subst ca cb. apply (fix_finite_above _ _ _ _ _ _ exp); [done | done | unfold exp; lia | lia |].
    unfold scaled. by destruct sa, sb.
  - subst ca. set (exp' := Z.max exp (eb - prec - 1)).
    apply (fix_finite_above _ _ _ _ _ _ (Z.min ea exp')); [done | done | lia | lia |].
    assert (sb = false) as ->.
    { unfold signed in Hb. destruct sb; [lia | done]. }
    unfold scaled. rewrite Z.mul_0_l.
    pose proof (pow10_pos (exp' - Z.min ea exp') ltac:(lia)). destruct sa; nia.
  - subst cb. set (exp' := Z.max exp (ea - prec - 1)).
    assert (Hexp' : exp' <= ea) by (unfold exp', exp, prec; lia).
    apply (fix_finite_above _ _ _ _ _ _ exp'); [done | done | lia | lia |].
    unfold scaled. rewrite Z.sub_diag, Z.mul_1_r.
    rewrite N2Z.inj_mul, N_pow10_Z by lia. destruct sa; lia.
  - assert (sb = false) as ->.
    { unfold signed in Hb. destruct sb; [lia | done]. }
    pose proof (normalize_above sa ca ea cb eb) as Hn.
    destruct (normalize ca ea cb eb) as [[ca' cb'] e'].
    specialize (Hn ca' cb' e' ltac:(lia) ltac:(lia) eq_refl).
    change (signed false cb') with (Z.of_N cb').
    set (z := signed sa ca' + Z.of_N cb') in *.
    set (lo := Z.min ea e') in *.
    pose proof (pow10_pos (e' - lo) ltac:(unfold lo; lia)) as Hp.
    destruct (z =? 0) eqn:Ez; [apply Z.eqb_eq in Ez | apply Z.eqb_neq in Ez].
    + rewrite Ez, Z.mul_0_l in Hn.
      apply (fix_finite_above _ _ _ _ _ _ (Z.min ea exp)); [done | done | lia | lia |].
      unfold scaled at 2. rewrite Z.mul_0_l.
      apply scaled_sign; [lia|]. by apply (scaled_sign lo sa ca ea) in Hn; [|unfold lo; lia].
    + apply (fix_finite_above _ _ _ _ _ _ lo); [done | done | unfold lo; lia..|].
      eapply Z.le_trans; [exact Hn|]. unfold scaled. rewrite Z2N.id by lia.
      destruct (z <? 0) eqn:Es; [apply Z.ltb_lt in Es | apply Z.ltb_ge in Es]; nia.
Qed.

(** ** What the context hands out *)

Lemma fix_finite_held (s : bool) (c : N) (e : Z) (r : Decimal) :
  fix_finite s c e = Ok r -> held r.
Proof.
  unfold fix_finite.
  destruct (c =? 0)%N eqn:Ec0.
  { intros [= <-]. simpl. split; [by vm_compute|].
    unfold Etiny, Emax, Emin, prec. lia. }
  apply N.eqb_neq in Ec0.
  pose proof (ndigits_upper c) as Hup. pose proof (ndigits_pos c) as Hnd.
  set (exp_min0 := ndigits c + e - prec).
  destruct (Etop <? exp_min0); [discriminate|].
  set (exp_min := Z.max exp_min0 Etiny).
  destruct (e <? exp_min) eqn:Eround;
    [apply Z.ltb_lt in Eround | apply Z.ltb_ge in Eround].
  - set (k := exp_min - e).
    pose proof (round_half_even_cases c k ltac:(unfold k; lia)) as Hq. cbv zeta in Hq.
    set (q := round_half_even c k) in *.
    assert (Hp : 0 < 10 ^ k) by (apply pow10_pos; unfold k; lia).
    assert (Hf28 : Z.of_N c / 10 ^ k < 10 ^ prec).
    { apply Z.div_lt_upper_bound; [done|].
      eapply Z.lt_le_trans; [exact Hup|].
      rewrite pow10_add by (unfold prec, k; lia).
      apply pow10_le. unfold k, exp_min, exp_min0, prec in *. lia. }
    destruct (10 ^ Z.to_N prec <=? q)%N eqn:Ecarry.
    + destruct (Etop <? exp_min + 1); [discriminate|]. intros [= <-]. simpl.
      split; [|lia]. rewrite N2Z.inj_div. change (Z.of_N 10) with 10.
      apply Z.div_lt_upper_bound; [lia|].
      assert (0 < 10 ^ prec) by (by vm_compute). lia.
    + apply N.leb_gt, N2Z.inj_lt in Ecarry. rewrite N_pow10_Z in Ecarry by done.
      intros [= <-]. simpl. split; [done | lia].
  - intros [= <-]. simpl. split; [|lia].
    eapply Z.lt_le_trans; [exact Hup|]. apply pow10_le.
    unfold exp_min, exp_min0 in *. lia.
Qed.

Lemma dec_add_held (a b r : Decimal) : dec_add a b = Ok r -> held r.
Proof.
  assert (Hnan : forall s p, held (fix_nan s p)).
  { intros s p. unfold fix_nan, held. rewrite N2Z.inj_mod, N_pow10_Z by done.
    apply Z.mod_pos_bound. by vm_compute. }
  destruct a as [sa ca ea|sa|sa pa|sa pa], b as [sb cb eb|sb|sb pb|sb pb]; simpl;
    try discriminate; try (intros [= <-]; done || apply Hnan).
  - unfold add_finite.
    destruct (normalize ca ea cb eb) as [[ca' cb'] e'].
    repeat (match goal with |- context [if ?b then _ else _] => destruct b end);
      apply fix_finite_held.
  - destruct (Bool.eqb sa sb); [by intros [= <-] | discriminate].
Qed.

Lemma dec_nonneg_finite (s : bool) (c : N) (e : Z) :
  dec_nonneg (Finite s c e) = true -> 0 <= signed s c.
Proof.
  unfold dec_nonneg, ZERO. intros H.
  apply (dec_le_units (Z.min 0 e)) in H; [|lia..].
  unfold scaled in H. rewrite Z.mul_0_l in H.
  pose proof (pow10_pos (e - Z.min 0 e) ltac:(lia)).
  unfold signed. destruct s; nia.
Qed.

(** Adding a value that is not negative never takes a held accumulator
    down. *)
Lemma dec_add_not_decreased (a v r : Decimal) :
  held a -> dec_nonneg v = true -> dec_add a v = Ok r -> not_decreased a r.
Proof.
  intros Ha Hv.
  destruct v as [sb cb eb|[|]|sb pb|sb pb]; try discriminate.
  - apply dec_nonneg_finite in Hv.
    destruct a as [sa ca ea|sa|sa pa|sa pa]; simpl in *; try done.
    + intros Hr. right. destruct Ha. by eapply add_finite_not_below.
    + intros [= <-]. by left.
    + intros [= <-]. left. unfold fix_nan. f_equal.
      apply N2Z.inj. rewrite N2Z.inj_mod, N_pow10_Z by done.
      apply Z.mod_small. lia.
  - destruct a as [sa ca ea|[|]|sa pa|sa pa]; simpl in *; try done.
    + intros [= <-]. by right.
    + intros [= <-]. by left.
    + intros [= <-]. left. unfold fix_nan. f_equal.
      apply N2Z.inj. rewrite N2Z.inj_mod, N_pow10_Z by done.
      apply Z.mod_small. lia.
Qed.

End Rounding.
Import Netting.

(** * Properties of the netting engine *)

Section NettingFacts.

(** ** Ordered dictionaries *)

Lemma od_get_set_eq {V} (k : string) (v : V) (d : OrderedDict V) :
  od_get k (od_set k v d) = Some v.
Proof.
  induction d as [|[k' v'] d IH]; simpl.
  - by rewrite String.eqb_refl.
  - destruct (String.eqb k k') eqn:E; simpl.
    + by rewrite String.eqb_refl.
    + by rewrite E.
Qed.

Lemma od_get_set_ne {V} (k k' : string) (v : V) (d : OrderedDict V) :
  k' <> k -> od_get k' (od_set k v d) = od_get k' d.
Proof.
  intros Hne. induction d as [|[k0 v0] d IH]; simpl.
  - destruct (String.eqb k' k) eqn:E; [|done].
    apply String.eqb_eq in E. congruence.
  - destruct (String.eqb k k0) eqn:E; simpl.
    + apply String.eqb_eq in E. subst k0.
      destruct (String.eqb k' k) eqn:E'; [|done].
      apply String.eqb_eq in E'. congruence.
    + by rewrite IH.
Qed.

Lemma od_set_set {V} (k : string) (v w : V) (d : OrderedDict V) :
  od_set k w (od_set k v d) = od_set k w d.
Proof.
  induction d as [|[k' v'] d IH]; simpl.
  - by rewrite String.eqb_refl.
  - destruct (String.eqb k k') eqn:E; simpl.
    + by rewrite String.eqb_refl.
    + by rewrite E, IH.
Qed.

Lemma setdefault_bucket (c : string) (totals : OrderedDict ContractAggregation) :
  (setdefault c ContractAggregation_init totals).2 = bucket_of totals c.
Proof. unfold setdefault, bucket_of. by destruct (od_get c totals). Qed.

Lemma od_set_setdefault (c : string) (b : ContractAggregation)
    (totals : OrderedDict ContractAggregation) :
  od_set c b (setdefault c ContractAggregation_init totals).1 = od_set c b totals.
Proof.
  unfold setdefault. destruct (od_get c totals); simpl; [done|].
  apply od_set_set.
Qed.

Lemma bucket_of_set (c : string) (b : ContractAggregation)
    (totals : OrderedDict ContractAggregation) :
  bucket_of (od_set c b totals) c = b.
Proof. unfold bucket_of. by rewrite od_get_set_eq. Qed.

Lemma bucket_of_set_ne (c c' : string) (b : ContractAggregation)
    (totals : OrderedDict ContractAggregation) :
  c' <> c -> bucket_of (od_set c b totals) c' = bucket_of totals c'.
Proof. intros H. unfold bucket_of. by rewrite od_get_set_ne. Qed.

(** ** The constructor signals nothing but [InvalidOperation] *)

Lemma Decimal_of_chars_raises (text : list ascii) (e : exn) :
  Decimal_of_chars text = Raise e -> e = InvalidOperation.
Proof.
  unfold Decimal_of_chars.
  destruct (split_sign _) as [sign body].
  destruct (parse_number body) as [[c ex]|].
  - destruct (_ || _); [by intros [= <-] | discriminate].
  - destruct (_ || _); [discriminate|].
    destruct (parse_nan body) as [[[] p]|]; try discriminate.
    by intros [= <-].
Qed.

Lemma parse_decimal_returns (value : option string) :
  exists d, parse_decimal value = Ok d.
Proof.
  destruct value as [s|]; simpl; [|eauto].
  destruct (strip_chars _) as [|c l]; [eauto|].
  destruct (Decimal_of_chars _) as [d|e] eqn:E; [eauto|].
  apply Decimal_of_chars_raises in E as ->. eauto.
Qed.

End NettingFacts.



(** C1. The realized-P&L zero test is the sole discriminant: a retained row
    (non-blank contract) either adds its notional to the contract's cost
    and leaves the profit as it was, when its realized P&L equals zero, or
    adds its realized P&L to the profit and leaves the cost as it was;
    no other contract is touched. The row raises exactly when the
    comparison or the addition it selects signals. *)
Theorem netting_discriminant (totals : OrderedDict ContractAggregation) (row : Row) :
  row_contract row <> "" ->
  exists pnl amount,
    parse_decimal (row !! COL_PNL) = Ok pnl /\
    parse_decimal (row !! COL_AMOUNT) = Ok amount /\
    let c := row_contract row in
    let old := bucket_of totals c in
    match process_row totals row with
    | Ok totals' =>
        let new := bucket_of totals' c in
        od_get c totals' = Some new /\
        (forall c', c' <> c -> od_get c' totals' = od_get c' totals) /\
        ((dec_eq pnl ZERO = Ok true /\
          dec_add (cost old) amount = Ok (cost new) /\ profit new = profit old) \/
         (dec_eq pnl ZERO = Ok false /\
          dec_add (profit old) pnl = Ok (profit new) /\ cost new = cost old))
    | Raise e =>
        dec_eq pnl ZERO = Raise e \/
        (dec_eq pnl ZERO = Ok true /\ dec_add (cost old) amount = Raise e) \/
        (dec_eq pnl ZERO = Ok false /\ dec_add (profit old) pnl = Raise e)
    end.
Proof.
  intros Hc.
  destruct (parse_decimal_returns (row !! COL_PNL)) as [pnl Hp].
  destruct (parse_decimal_returns (row !! COL_AMOUNT)) as [amount Ha].
  exists pnl, amount. split; [done|]. split; [done|].
  unfold process_row. cbv zeta.
  destruct (String.eqb (row_contract row) "") eqn:E.
  { apply String.eqb_eq in E. done. }
  rewrite Hp, Ha. simpl.
  pose proof (setdefault_bucket (row_contract row) totals) as Hb.
  pose proof (fun b => od_set_setdefault (row_contract row) b totals) as Hs.
  destruct (setdefault _ _ totals) as [totals1 bucket]. simpl in Hb, Hs. subst bucket.
  destruct (dec_eq pnl ZERO) as [[|]|e]; simpl; [| |by left].
  - unfold add_cost.
    destruct (dec_add (cost (bucket_of totals (row_contract row))) amount) as [s|e]; simpl.
    + rewrite Hs, !bucket_of_set, od_get_set_eq. simpl.
      split; [done|]. split; [|by left].
      intros c' Hne. by apply od_get_set_ne.
    + right. by left.
  - unfold add_profit.
    destruct (dec_add (profit (bucket_of totals (row_contract row))) pnl) as [s|e]; simpl.
    + rewrite Hs, !bucket_of_set, od_get_set_eq. simpl.
      split; [done|]. split; [|by right].
      intros c' Hne. by apply od_get_set_ne.
    + right. by right.
Qed.

(** The first row of the end-to-end example: realized P&L 0, notional 100. *)
Lemma netting_discriminant_witness :
  exists totals',
    process_row [] (Samples.csv_row "BTC" "100" "0") = Ok totals' /\
    cost (bucket_of totals' "BTC") = Finite false 100 0 /\
    profit (bucket_of totals' "BTC") = profit (bucket_of [] "BTC").
Proof.
  assert (Hc : row_contract (Samples.csv_row "BTC" "100" "0") <> "")
    by (vm_compute; discriminate).
  destruct (netting_discriminant [] (Samples.csv_row "BTC" "100" "0") Hc)
    as (pnl & amount & Hp & Ha & Hm).
  vm_compute in Hp, Ha. injection Hp as <-. injection Ha as <-.
  cbv zeta in Hm.
  replace (row_contract (Samples.csv_row "BTC" "100" "0")) with "BTC" in Hm
    by (vm_compute; reflexivity).
  destruct (process_row [] (Samples.csv_row "BTC" "100" "0")) as [t|e].
  - exists t. split; [done|].
    destruct Hm as (_ & _ & [(_ & Hadd & Hprof) | (Heq & _)]).
    + split; [|done].
      assert (Hl : dec_add (cost (bucket_of [] "BTC")) (Finite false 100 0)
                   = Ok (Finite false 100 0)) by (vm_compute; reflexivity).
      rewrite Hl in Hadd. by injection Hadd as <-.
    + vm_compute in Heq. discriminate.
  - exfalso. destruct Hm as [Heq | [(_ & Hadd) | (Heq & _)]].
    + vm_compute in Heq. discriminate.
    + vm_compute in Hadd. discriminate.
    + vm_compute in Heq. discriminate.
Defined.

(** ** Plain batches run on exact sums *)

Import Exact.

Section ExactRun.












End ExactRun.

(** ** Exact sums do not depend on the order of the rows *)

Section ExactOrder.










End ExactOrder.




(** ** What the engine can raise *)

Section Raises.







End Raises.




(** ** The schema check *)

Lemma in_names_In (field : string) (names : list string) :
  in_names field names = true <-> In field names.
Proof.
  unfold in_names. rewrite existsb_exists. split.
  - intros (x & Hx & Heq). apply String.eqb_eq in Heq. by subst.
  - intros Hin. exists field. split; [done | apply String.eqb_refl].
Qed.

Lemma filter_none {A} (f : A -> bool) (l : list A) :
  (forall x, In x l -> f x = false) -> List.filter f l = [].
Proof.
  induction l as [|x l IH]; intros Hall; simpl; [done|].
  rewrite (Hall x) by (by left). apply IH. intros y Hy. apply Hall. by right.
Qed.

(** C7. When the reader has field names, the schema check does what the
    specification says: with the three required fields present all rows
    are delivered, and with one of them absent a single [ValueError]
    naming the absent fields is raised before any row is delivered. A file
    without a first line, for which [fieldnames] is [None], lacks all three
    fields and yet raises a [TypeError], because the membership test is
    evaluated before the [None] test. *)
Theorem load_rows_schema :
  (forall (R : Type) (rows : list R), load_rows None rows = Raise TypeError) /\
  (forall (R : Type) (names : list string) (rows : list R),
     (forall f, In f REQUIRED_FIELDS -> In f names) ->
     load_rows (Some names) rows = Ok rows) /\
  (forall (R : Type) (names : list string) (rows : list R) (f : string),
     In f REQUIRED_FIELDS -> ~ In f names ->
     load_rows (Some names) rows =
       Raise (ValueError ("Input CSV 缺少必需字段: " ++
         join (sorted (List.filter (fun field => negb (in_names field names))
                                   REQUIRED_FIELDS))))) /\
  load_rows (Some ["合约"; "订单号"]) [Samples.loss] =
    Raise (ValueError "Input CSV 缺少必需字段: 已实现盈亏, 成交额").
Proof.
  split; [done|]. split; [|split; [|by vm_compute]].
  - intros R names rows Hall. unfold load_rows.
    replace (List.filter _ REQUIRED_FIELDS) with (@nil string); [done|].
    symmetry. apply filter_none. intros f Hf.
    apply negb_false_iff, in_names_In. by apply Hall.
  - intros R names rows f Hf Hnot. unfold load_rows.
    destruct (List.filter _ REQUIRED_FIELDS) as [|x l] eqn:E; [|done].
    exfalso. assert (Hin : In f (List.filter (fun field => negb (in_names field names)) REQUIRED_FIELDS)).
    { apply filter_In. split; [done|]. apply negb_true_iff.
      destruct (in_names f names) eqn:E'; [|done]. by apply in_names_In in E'. }
    by rewrite E in Hin.
Qed.

(** ** Accumulators *)

Section Accumulators.

Lemma held_ZERO : held ZERO.
Proof. split; by vm_compute. Qed.

Lemma bucket_of_held (totals : OrderedDict ContractAggregation) (c : string) :
  totals_held totals ->
  held (cost (bucket_of totals c)) /\ held (profit (bucket_of totals c)).
Proof.
  intros Hh. unfold bucket_of. destruct (od_get c totals) as [b|] eqn:E; simpl.
  - by apply (Hh c).
  - split; apply held_ZERO.
Qed.

(** What a row does to the bucket of a contract: nothing, or one addition
    to one of its two totals. *)
Lemma process_row_buckets (totals totals' : OrderedDict ContractAggregation)
    (row : Row) (c : string) :
  process_row totals row = Ok totals' ->
  let old := bucket_of totals c in
  let new := bucket_of totals' c in
  new = old \/
  (exists amount, parse_decimal (row !! COL_AMOUNT) = Ok amount /\
     dec_add (cost old) amount = Ok (cost new) /\ profit new = profit old) \/
  (exists pnl, parse_decimal (row !! COL_PNL) = Ok pnl /\
     dec_add (profit old) pnl = Ok (profit new) /\ cost new = cost old).
Proof.
  unfold process_row. cbv zeta.
  destruct (String.eqb (row_contract row) "") eqn:E; [intros [= <-]; by left|].
  destruct (parse_decimal_returns (row !! COL_PNL)) as [pnl Hp].
  destruct (parse_decimal_returns (row !! COL_AMOUNT)) as [amount Ha].
  rewrite Hp, Ha. cbv beta iota delta [mbind result_bind Py.bind mret result_ret].
  pose proof (setdefault_bucket (row_contract row) totals) as Hb.
  pose proof (fun b => od_set_setdefault (row_contract row) b totals) as Hs.
  destruct (setdefault _ _ totals) as [totals1 bucket]. simpl in Hb, Hs. subst bucket.
  destruct (decide (c = row_contract row)) as [->|Hne]; cycle 1.
  { destruct (dec_eq pnl ZERO) as [[|]|]; [| |discriminate].
    - unfold add_cost. destruct (dec_add _ amount); [|discriminate].
      intros [= <-]. left. rewrite Hs. by apply bucket_of_set_ne.
    - unfold add_profit. destruct (dec_add _ pnl); [|discriminate].
      intros [= <-]. left. rewrite Hs. by apply bucket_of_set_ne. }
  destruct (dec_eq pnl ZERO) as [[|]|]; [| |discriminate].
  - unfold add_cost.
    destruct (dec_add (cost (bucket_of totals (row_contract row))) amount) as [s|] eqn:Eadd;
      [|discriminate].
    intros [= <-]. right. left. exists amount. by rewrite Hs, bucket_of_set.
  - unfold add_profit.
    destruct (dec_add (profit (bucket_of totals (row_contract row))) pnl) as [s|] eqn:Eadd;
      [|discriminate].
    intros [= <-]. right. right. exists pnl. by rewrite Hs, bucket_of_set.
Qed.

Lemma od_get_bucket (totals : OrderedDict ContractAggregation) (c : string)
    (b : ContractAggregation) :
  od_get c totals = Some b -> bucket_of totals c = b.
Proof. intros H. unfold bucket_of. by rewrite H. Qed.

Lemma process_row_held (totals totals' : OrderedDict ContractAggregation) (row : Row) :
  totals_held totals -> process_row totals row = Ok totals' -> totals_held totals'.
Proof.
  intros Hh Hrun c b Hb.
  pose proof (process_row_buckets totals totals' row c Hrun) as Hcase. cbv zeta in Hcase.
  rewrite (od_get_bucket _ _ _ Hb) in Hcase.
  destruct (bucket_of_held totals c Hh) as [Hc Hp].
  destruct Hcase as [->|[(v & _ & Hadd & ->)|(v & _ & Hadd & ->)]]; [done| |].
  - split; [by eapply dec_add_held | done].
  - split; [done | by eapply dec_add_held].
Qed.

Lemma for_each_held (rows : list Row) (totals totals' : OrderedDict ContractAggregation) :
  totals_held totals -> for_each process_row rows totals = Ok totals' ->
  totals_held totals'.
Proof.
  revert totals. induction rows as [|row rows IH]; intros totals Hh; simpl.
  - by intros [= <-].
  - destruct (process_row totals row) as [t|] eqn:E; [|discriminate]. simpl.
    apply IH. by eapply process_row_held.
Qed.

Lemma aggregate_held (rows : list Row) (totals : OrderedDict ContractAggregation) :
  aggregate_contracts rows = Ok totals -> totals_held totals.
Proof. apply for_each_held. intros c b Hb. discriminate. Qed.

Lemma not_decreased_refl (a : Decimal) : not_decreased a a.
Proof. by left. Qed.

End Accumulators.

(** C9 (as the code has it). The two totals of a contract start at exact
    zero, and a row changes them in one way only: it adds its parsed value
    to one of them and leaves the other as it is; nothing ever resets a
    total. A total can go down only when the value added is negative (a
    realized loss, or a negative notional): in a running batch, a row whose
    parsed values are zero or positive leaves every total unchanged or
    higher, rounding included. *)
Theorem accumulators_grow_by_addition :
  (cost ContractAggregation_init = ZERO /\ profit ContractAggregation_init = ZERO /\
   forall c, bucket_of [] c = ContractAggregation_init) /\
  (forall totals row totals' c,
     process_row totals row = Ok totals' ->
     let old := bucket_of totals c in
     let new := bucket_of totals' c in
     new = old \/
     (exists amount, parse_decimal (row !! COL_AMOUNT) = Ok amount /\
        dec_add (cost old) amount = Ok (cost new) /\ profit new = profit old) \/
     (exists pnl, parse_decimal (row !! COL_PNL) = Ok pnl /\
        dec_add (profit old) pnl = Ok (profit new) /\ cost new = cost old)) /\
  (forall rows totals row totals' c,
     aggregate_contracts rows = Ok totals ->
     process_row totals row = Ok totals' ->
     (forall v, parse_decimal (row !! COL_AMOUNT) = Ok v -> dec_nonneg v = true) ->
     (forall v, parse_decimal (row !! COL_PNL) = Ok v -> dec_nonneg v = true) ->
     not_decreased (cost (bucket_of totals c)) (cost (bucket_of totals' c)) /\
     not_decreased (profit (bucket_of totals c)) (profit (bucket_of totals' c))).
Proof.
  split; [done|].
  split; [intros totals row totals' c; apply process_row_buckets|].
  intros rows totals row totals' c Hrun Hstep Hamount Hpnl.
  destruct (bucket_of_held totals c (aggregate_held rows totals Hrun)) as [Hc Hp].
  pose proof (process_row_buckets totals totals' row c Hstep) as Hcase. cbv zeta in Hcase.
  destruct Hcase as [->|[(v & Hv & Hadd & ->)|(v & Hv & Hadd & ->)]].
  - split; apply not_decreased_refl.
  - split; [|apply not_decreased_refl].
    eapply dec_add_not_decreased; [done | by apply Hamount | done].
  - split; [apply not_decreased_refl|].
    eapply dec_add_not_decreased; [done | by apply Hpnl | done].
Qed.

(** A realized profit of 50 after a cost of 100: neither total of BTC goes
    down. *)
Lemma accumulators_grow_by_addition_witness :
  let totals := [("BTC", {| cost := Finite false 100 0; profit := ZERO |})] in
  let totals' := [("BTC", {| cost := Finite false 100 0; profit := Finite false 50 0 |})] in
  aggregate_contracts [Samples.csv_row "BTC" "100" "0"] = Ok totals /\
  process_row totals (Samples.csv_row "BTC" "0" "50") = Ok totals' /\
  not_decreased (cost (bucket_of totals "BTC")) (cost (bucket_of totals' "BTC")) /\
  not_decreased (profit (bucket_of totals "BTC")) (profit (bucket_of totals' "BTC")).
Proof.
  intros totals totals'.
  destruct accumulators_grow_by_addition as (_ & _ & Hgrow).
  assert (Hrun : aggregate_contracts [Samples.csv_row "BTC" "100" "0"] = Ok totals)
    by (vm_compute; reflexivity).
  assert (Hstep : process_row totals (Samples.csv_row "BTC" "0" "50") = Ok totals')
    by (vm_compute; reflexivity).
  split; [exact Hrun|]. split; [exact Hstep|].
  apply (Hgrow [Samples.csv_row "BTC" "100" "0"] totals
           (Samples.csv_row "BTC" "0" "50") totals' "BTC" Hrun Hstep).
  - intros v Hv.
    assert (Hp : parse_decimal (Samples.csv_row "BTC" "0" "50" !! COL_AMOUNT) = Ok ZERO)
      by (vm_compute; reflexivity).
    rewrite Hp in Hv. by injection Hv as <-.
  - intros v Hv.
    assert (Hp : parse_decimal (Samples.csv_row "BTC" "0" "50" !! COL_PNL)
                 = Ok (Finite false 50 0)) by (vm_compute; reflexivity).
    rewrite Hp in Hv. by injection Hv as <-.
Defined.

(** C9, as stated, fails: a realized loss takes the profit of the contract
    from 0 to -5, and a negative notional does the same to its cost. *)
Lemma accumulator_decrease_counterexample :
  process_row [] Samples.loss =
    Ok [("BTC", {| cost := ZERO; profit := Finite true 5 0 |})] /\
  dec_lt (Finite true 5 0) (profit (bucket_of [] "BTC")) = true /\
  process_row [] Samples.negative_notional =
    Ok [("BTC", {| cost := Finite true 5 0; profit := ZERO |})] /\
  dec_lt (Finite true 5 0) (cost (bucket_of [] "BTC")) = true.
Proof. by vm_compute. Qed.


(** * Properties of the reconstruction engine *)

Import Reconstruction Carriers.

(** The exact rationals satisfy the laws. *)
#[export] Instance exact_laws : Float64Laws exact.
Proof.
  split.
  - reflexivity.
  - reflexivity.
  - intros [|q]; simpl; [discriminate|]. intros Hq.
    apply Z.ltb_lt in Hq. apply Z.eqb_neq. lia.
  - intros [|q]; simpl; [discriminate | reflexivity].
  - intros [|x] [|y]; simpl; try discriminate; try (intros [?|?]; discriminate).
    intros Hx Hy. apply Z.ltb_lt in Hy. apply Z.ltb_lt.
    assert (Hx' : (0 <= Qnum x)%Z).
    { destruct Hx as [Hx|Hx]; [apply Z.eqb_eq in Hx | apply Z.ltb_lt in Hx]; lia. }
    assert (Hpos : (0 < Qred (x + y))%Q).
    { rewrite Qred_correct. unfold Qlt, Qplus. simpl.
      pose proof (Pos2Z.is_pos (Qden x)). pose proof (Pos2Z.is_pos (Qden y)). nia. }
    unfold Qlt in Hpos. simpl in Hpos. lia.
Qed.

(** ** The model at work, in binary64 (0x1.aaaaaaaaaaaabp+3 is 40 / 3) *)

Example weighted_average_two_buys :
  leg_stats Samples.two_buys = (0x1.aaaaaaaaaaaabp+3%float, 40%float).
Proof. by vm_compute. Qed.

Example only_buys :
  process_trading_data Samples.two_buys =
    Ok [ {| t_symbol := "BTC"; t_start := Some 1; t_end := Some 1; t_direction := "多";
            t_open_avg := 0x1.aaaaaaaaaaaabp+3%float; t_open_total := 40%float;
            t_close_avg := 0%float; t_close_total := 0%float;
            t_rate := "-100.00%"; t_profit := (-40)%float |} ].
Proof. by vm_compute. Qed.

(** ** The rendering of the rate *)





Section ReconstructionFacts.

Context {F : Type} `{Float64 F}.

(** ** Filters and sorting *)

Lemma insert_by_time_In (r x : order_row F) (l : list (order_row F)) :
  In x (insert_by_time r l) <-> x = r \/ In x l.
Proof.
  induction l as [|y l IH]; simpl; [intuition|].
  destruct (order_time r <=? order_time y); simpl; rewrite ?IH; intuition.
Qed.

Lemma insert_by_time_sorted (r : order_row F) (l : list (order_row F)) :
  time_sorted l -> time_sorted (insert_by_time r l).
Proof.
  induction 1 as [|y l Hy Hl IH]; simpl.
  - constructor; [intros x []|constructor].
  - destruct (order_time r <=? order_time y) eqn:E.
    + apply Z.leb_le in E. constructor; [|by constructor].
      intros x [<-|Hx]; [done|]. specialize (Hy x Hx). lia.
    + apply Z.leb_gt in E. constructor; [|done].
      intros x Hx. apply insert_by_time_In in Hx as [->|Hx]; [lia | auto].
Qed.

Lemma sort_values_sorted (l : list (order_row F)) : time_sorted (sort_values l).
Proof.
  induction l as [|r l IH]; simpl; [constructor|].
  by apply insert_by_time_sorted.
Qed.

Lemma filter_time_sorted (f : order_row F -> bool) (l : list (order_row F)) :
  time_sorted l -> time_sorted (List.filter f l).
Proof.
  induction 1 as [|y l Hy Hl IH]; simpl; [constructor|].
  destruct (f y); [|done]. constructor; [|done].
  intros x Hx. apply filter_In in Hx as [Hx _]. auto.
Qed.

Lemma symbol_rows_sorted (symbol : string) (df : list (order_row F)) :
  time_sorted (symbol_rows symbol df).
Proof. apply filter_time_sorted, sort_values_sorted. Qed.


(** ** Sums of positive amounts *)

Context `{!Float64Laws F}.




End ReconstructionFacts.




(** C4 (as the code has it). Within a contract the two legs are cut out by
    two independent text tests on the side tag: a surviving row is in the
    opening leg exactly when its tag contains an opening marker of the
    direction, and in the closing leg exactly when it contains a closing
    marker. A row is therefore in exactly one leg only when exactly one of
    the two tests succeeds; a tag matching both is in both legs and a tag
    matching neither is in neither. *)
Theorem leg_membership {F : Type} `{Float64 F}
    (symbol : string) (df : list (order_row F)) (is_long : bool) (r : order_row F) :
  In r (symbol_rows symbol df) ->
  let symbol_df := symbol_rows symbol df in
  let opening := str_contains (open_markers is_long) (side r) in
  let closing := str_contains (close_markers is_long) (side r) in
  (In r (open_orders is_long symbol_df) <-> opening = true) /\
  (In r (close_orders is_long symbol_df) <-> closing = true) /\
  ((In r (open_orders is_long symbol_df) /\ ~ In r (close_orders is_long symbol_df)) \/
   (~ In r (open_orders is_long symbol_df) /\ In r (close_orders is_long symbol_df))
   <-> xorb opening closing = true).
Proof.
  intros Hr symbol_df opening closing.
  assert (Ho : In r (open_orders is_long symbol_df) <-> opening = true).
  { unfold open_orders. rewrite filter_In. intuition. }
  assert (Hc : In r (close_orders is_long symbol_df) <-> closing = true).
  { unfold close_orders. rewrite filter_In. intuition. }
  split; [done|]. split; [done|].
  rewrite Ho, Hc. destruct opening, closing; simpl; intuition congruence.
Qed.

(** In a long contract, an order that opens the long is in the opening leg
    only. *)
Lemma leg_membership_witness :
  let r := Samples.order "BTC" 1 (Some "买入开多") (Number 1%float) (Number 100%float) (Number 100%float) in
  In r (open_orders true (symbol_rows "BTC" Samples.mixed_sides)) /\
  ~ In r (close_orders true (symbol_rows "BTC" Samples.mixed_sides)).
Proof.
  intros r.
  assert (Hr : In r (symbol_rows "BTC" Samples.mixed_sides)) by (vm_compute; auto).
  destruct (leg_membership "BTC" Samples.mixed_sides true r Hr) as (Ho & Hc & _).
  split.
  - apply Ho. vm_compute. reflexivity.
  - intros Hin. apply Hc in Hin. vm_compute in Hin. discriminate.
Defined.

(** C4, as stated, fails: in the long contract [mixed_sides] the order
    tagged 买入平空 (time 2) is in both legs and the order tagged 开空
    (time 3) is in neither. *)
Lemma leg_partition_counterexample :
  List.map order_time (symbol_rows "BTC" Samples.mixed_sides) = [1; 2; 3] /\
  first_is_long (Some "买入开多") = Ok true /\
  List.map order_time (open_orders true (symbol_rows "BTC" Samples.mixed_sides)) = [1; 2] /\
  List.map order_time (close_orders true (symbol_rows "BTC" Samples.mixed_sides)) = [2].
Proof. vm_compute. repeat split. Qed.

(** C8. The direction is read off the first surviving row, which is the
    earliest one: with a text tag [s] there, the contract is long exactly
    when [s] contains 买 or 开多 and short otherwise, whatever the later
    rows hold. When the side cell of that row is empty the membership test
    raises and the run ends in [sys.exit(1)] instead of a short position
    ([empty_side]). *)
Theorem direction_first_row :
  (forall (F : Type) (NF : Float64 F) (symbol : string) (df : list (order_row F))
          (first : order_row F) (rest : list (order_row F)) (s : string),
      symbol_rows symbol df = first :: rest ->
      side first = Some s ->
      (forall r, In r rest -> order_time first <= order_time r) /\
      exists t, process_symbol symbol df = Ok (Some t) /\
                t_direction t = if contains "买" s || contains "开多" s then "多" else "空") /\
  (process_symbol "ETH" Samples.empty_side = Raise TypeError /\
   process_trading_data Samples.empty_side = Raise (SystemExit 1)).
Proof.
  split; [|by vm_compute].
  intros F NF symbol df first rest s Hrows Hside. split.
  - pose proof (symbol_rows_sorted symbol df) as Hs. rewrite Hrows in Hs.
    by inversion Hs.
  - unfold process_symbol. rewrite Hrows, Hside.
    cbv beta iota delta [first_is_long mbind result_bind Py.bind].
    destruct (leg_stats (open_orders _ _)), (leg_stats (close_orders _ _)).
    eexists. split; [reflexivity|]. reflexivity.
Qed.

(** C2. On [unreadable_price] the code gives the average (10 * 1) / (1 + 1)
    = 5: the quantity of the order without a readable price stays in the
    denominator. Over the rows with both a readable price and a readable
    quantity the average is 10. *)
Theorem weighted_average_unreadable_price :
  (leg_stats Samples.unreadable_price).1 = 5%float /\
  spec_weighted_average Samples.unreadable_price = 10%float /\
  exists t, process_symbol "BTC" Samples.unreadable_price = Ok (Some t) /\
            t_direction t = "多" /\ t_open_avg t = 5%float.
Proof.
  split; [by vm_compute|]. split; [by vm_compute|].
  eexists. split; [vm_compute; reflexivity|]. by split.
Qed.
